(** * lehash: file digests through the kernel's AF_ALG hashing sockets

    A shallow embedding of [lehash.py].  The program is a thin layer of
    system calls, so the embedding threads an explicit [World] (descriptor
    table, file system, errno, and the trace of calls issued so far) through
    a small state-and-exception monad.  The kernel's answers that the program
    cannot predict (is the transform available, is the key accepted, how many
    bytes does a read deliver) are taken from a [Kernel] record. *)

From Stdlib Require Import ZArith List Lia.
From Stdlib.Strings Require Import Ascii String Byte.
From stdpp Require Import gmap strings list fin_maps.

Open Scope Z_scope.

(** ** Data *)

Abbreviation bytes := (list byte).

(** [len(b)] on a bytes object. *)
Definition len (b : bytes) : Z := Z.of_nat (length b).

(** [b * n] on a bytes object of length one. *)
Definition bytes_repeat (x : byte) (n : Z) : bytes := repeat x (Z.to_nat n).

(** Python exceptions the program can raise.  [OSError] keeps the errno only:
    the message is [os.strerror] of it. *)
Inductive exn :=
| KeyError (key : string)
| OSError (errno : Z)
| SystemExit (code : Z).

(** How a call ends.  [OutOfFuel] stands for a loop that was still running
    when the model's step budget ran out. *)
Inductive outcome (A : Type) :=
| Ok (a : A)
| Raise (e : exn)
| OutOfFuel.
Arguments Ok {A} a.
Arguments Raise {A} e.
Arguments OutOfFuel {A}.

Definition ENOENT : Z := 2.
Definition EBADF : Z := 9.
Definition EINVAL : Z := 22.
Definition ESPIPE : Z := 29.
Definition ENOTSOCK : Z := 88.
Definition ENOPROTOOPT : Z := 92.

(** ** The operating system as the program sees it *)

(** What a descriptor refers to. *)
Inductive fdobj :=
| FSock (addr : option (bytes * bytes)) (key : option bytes)
    (* an AF_ALG socket: bound (salg_type, salg_name), key set on it *)
| FSession (name : bytes) (key : option bytes) (msg : bytes) (nread : nat)
    (* a descriptor derived by accept: the message absorbed so far and the
       number of reads already served for it *)
| FFile (data : bytes) (pos : Z).
    (* a regular file open for reading and its offset *)

(** The system calls the program issues, with their arguments. *)
Inductive event :=
| EvSocket (family type proto : Z)
| EvBind (fd : Z) (salg_type salg_name : bytes)
| EvSetsockopt (fd level optname : Z) (optval : bytes) (optlen : Z)
| EvAccept (fd : Z)
| EvSendfile (out_fd in_fd count : Z)
| EvLseek (fd off : Z)
| EvRead (fd n : Z)
| EvClose (fd : Z)
| EvOpen (path : string)
| EvFlock (fd : Z)
| EvFstat (fd : Z)
| EvPrint (line : string).

Inductive read_reply :=
| RData (b : bytes)
| RErr (errno : Z).

(** The kernel's side of the calls.  [None] means the call is granted, [Some
    n] that it is refused with errno [n].  A read on a session is answered
    from the transform named at bind time, its key, the message transferred
    into the session, the number of reads already served for that message and
    the number of bytes asked for. *)
Record Kernel := {
  k_socket : Z -> option Z;
  k_bind : bytes -> bytes -> option Z;
  k_setsockopt : bytes -> Z -> Z -> bytes -> Z -> option Z;
  k_accept : nat -> option Z;
  k_read : bytes -> option bytes -> bytes -> nat -> Z -> read_reply
}.

Record World := {
  w_fds : gmap Z fdobj;
  w_fs : gmap string bytes;
  w_errno : Z;
  w_trace : list event
}.

Definition set_fds (f : gmap Z fdobj → gmap Z fdobj) (w : World) : World :=
  {| w_fds := f (w_fds w); w_fs := w_fs w; w_errno := w_errno w;
     w_trace := w_trace w |}.

Definition set_errno (n : Z) (w : World) : World :=
  {| w_fds := w_fds w; w_fs := w_fs w; w_errno := n; w_trace := w_trace w |}.

Definition log (e : event) (w : World) : World :=
  {| w_fds := w_fds w; w_fs := w_fs w; w_errno := w_errno w;
     w_trace := w_trace w ++ [e] |}.

(** The lowest descriptor number not in use. *)
Fixpoint lowest_free (t : gmap Z fdobj) (n : nat) (c : Z) : Z :=
  match n with
  | O => c
  | S n' => match t !! c with
            | Some _ => lowest_free t n' (c + 1)
            | None => c
            end
  end.

Definition fresh_fd (t : gmap Z fdobj) : Z := lowest_free t (size t) 0.

(** ** The monad: state passing over [World], with exceptions *)

Definition M (A : Type) : Type := World → outcome A * World.

Definition ret {A} (a : A) : M A := fun w => (Ok a, w).

Definition bind {A B} (m : M A) (f : A → M B) : M B :=
  fun w => match m w with
           | (Ok a, w') => f a w'
           | (Raise e, w') => (Raise e, w')
           | (OutOfFuel, w') => (OutOfFuel, w')
           end.

Definition raise {A} (e : exn) : M A := fun w => (Raise e, w).

Definition out_of_fuel {A} : M A := fun w => (OutOfFuel, w).

Notation "x <- m ;; k" := (bind m (fun x => k))
  (at level 100, m at next level, right associativity).
Notation "m ;;; k" := (bind m (fun _ => k))
  (at level 100, right associativity).

(** [try: m finally: fin].  The finaliser runs when [m] returns and when it
    raises; an exception of the finaliser replaces the pending one. *)
Definition try_finally {A} (m : M A) (fin : M unit) : M A :=
  fun w => match m w with
           | (OutOfFuel, w') => (OutOfFuel, w')
           | (o, w') => match fin w' with
                        | (Ok _, w'') => (o, w'')
                        | (Raise e, w'') => (Raise e, w'')
                        | (OutOfFuel, w'') => (OutOfFuel, w'')
                        end
           end.

Definition emit (e : event) : M unit := fun w => (Ok tt, log e w).

Definition get_fd (fd : Z) : M (option fdobj) := fun w => (Ok (w_fds w !! fd), w).

Definition put_fd (fd : Z) (o : fdobj) : M unit :=
  fun w => (Ok tt, set_fds (insert fd o) w).

Definition drop_fd (fd : Z) : M unit :=
  fun w => (Ok tt, set_fds (delete fd) w).

(** The message a session holds once [chunk] has been transferred into it:
    input that arrives after output was read starts a new message. *)
Definition absorb (msg : bytes) (nread : nat) (chunk : bytes) : bytes :=
  match nread with
  | O => msg ++ chunk
  | S _ => chunk
  end.

(** ** System calls *)

Section Syscalls.

Variable K : Kernel.

(** [socket.socket(family, type, proto)]; the Python socket object is
    identified with its descriptor. *)
Definition socket_socket (family type proto : Z) : M Z :=
  emit (EvSocket family type proto);;;
  match k_socket K family with
  | Some n => raise (OSError n)
  | None => fun w =>
      let fd := fresh_fd (w_fds w) in
      (Ok fd, set_fds (insert fd (FSock None None)) w)
  end.

(** [sock.close()]: releases the descriptor; closing twice is harmless. *)
Definition socket_close (sock : Z) : M unit :=
  emit (EvClose sock);;; drop_fd sock.

(** [ctypes.get_errno()]. *)
Definition ctypes_get_errno : M Z := fun w => (Ok (w_errno w), w).

(** A failing libc call: returns -1 and leaves the errno behind. *)
Definition libc_fail (n : Z) : M Z := fun w => (Ok (-1), set_errno n w).

(** [_libc.bind(fd, byref(algo), sizeof(algo))]. *)
Definition libc_bind (fd : Z) (salg_type salg_name : bytes) : M Z :=
  emit (EvBind fd salg_type salg_name);;;
  o <- get_fd fd;;
  match o with
  | Some (FSock _ key) =>
      match k_bind K salg_type salg_name with
      | Some n => libc_fail n
      | None => put_fd fd (FSock (Some (salg_type, salg_name)) key);;; ret 0
      end
  | Some _ => libc_fail ENOTSOCK
  | None => libc_fail EBADF
  end.

(** [_libc.setsockopt(fd, level, optname, optval, optlen)]: the kernel takes
    the first [optlen] bytes of [optval]. *)
Definition libc_setsockopt (fd level optname : Z) (optval : bytes) (optlen : Z)
  : M Z :=
  emit (EvSetsockopt fd level optname optval optlen);;;
  o <- get_fd fd;;
  match o with
  | Some (FSock (Some (ty, name)) _) =>
      match k_setsockopt K name level optname optval optlen with
      | Some n => libc_fail n
      | None =>
          put_fd fd (FSock (Some (ty, name))
                           (Some (firstn (Z.to_nat optlen) optval)));;;
          ret 0
      end
  | Some (FSock None _) => libc_fail ENOPROTOOPT
  | Some _ => libc_fail ENOTSOCK
  | None => libc_fail EBADF
  end.

(** [_libc.accept(fd, None, None)]: a new descriptor with a fresh message, or
    -1. *)
Definition libc_accept (fd : Z) : M Z :=
  fun w =>
    let w1 := log (EvAccept fd) w in
    match w_fds w1 !! fd with
    | Some (FSock (Some (_, name)) key) =>
        match k_accept K (length (w_trace w)) with
        | Some n => libc_fail n w1
        | None =>
            let s := fresh_fd (w_fds w1) in
            (Ok s, set_fds (insert s (FSession name key [] 0)) w1)
        end
    | Some (FSock None _) => libc_fail EINVAL w1
    | Some _ => libc_fail ENOTSOCK w1
    | None => libc_fail EBADF w1
    end.

(** [os.close(fd)]. *)
Definition os_close (fd : Z) : M unit :=
  emit (EvClose fd);;;
  o <- get_fd fd;;
  match o with
  | Some _ => drop_fd fd
  | None => raise (OSError EBADF)
  end.

(** The bytes a transfer or a read takes from a file at offset [pos]. *)
Definition file_chunk (data : bytes) (pos count : Z) : bytes :=
  firstn (Z.to_nat count) (skipn (Z.to_nat pos) data).

(** [os.sendfile(out_fd, in_fd, None, count)]: moves up to [count] bytes from
    the current offset of [in_fd] into the session [out_fd] and advances the
    offset.  Input that arrives after output was read starts a new message. *)
Definition os_sendfile (out_fd in_fd count : Z) : M Z :=
  emit (EvSendfile out_fd in_fd count);;;
  i <- get_fd in_fd;;
  o <- get_fd out_fd;;
  match i, o with
  | Some (FFile data pos), Some (FSession name key msg nread) =>
      let chunk := file_chunk data pos count in
      put_fd in_fd (FFile data (pos + len chunk));;;
      put_fd out_fd (FSession name key (absorb msg nread chunk) 0);;;
      ret (len chunk)
  | Some (FFile _ _), Some _ => raise (OSError EINVAL)
  | Some _, Some _ => raise (OSError EINVAL)
  | _, _ => raise (OSError EBADF)
  end.

(** [os.lseek(fd, pos, os.SEEK_SET)]. *)
Definition os_lseek (fd pos : Z) : M Z :=
  emit (EvLseek fd pos);;;
  o <- get_fd fd;;
  match o with
  | Some (FFile data _) =>
      if pos <? 0 then raise (OSError EINVAL)
      else put_fd fd (FFile data pos);;; ret pos
  | Some _ => raise (OSError ESPIPE)
  | None => raise (OSError EBADF)
  end.

(** [os.read(fd, n)]. *)
Definition os_read (fd n : Z) : M bytes :=
  emit (EvRead fd n);;;
  o <- get_fd fd;;
  match o with
  | Some (FSession name key msg nread) =>
      match k_read K name key msg nread n with
      | RData b => put_fd fd (FSession name key msg (S nread));;; ret b
      | RErr e => raise (OSError e)
      end
  | Some (FFile data pos) =>
      let chunk := file_chunk data pos n in
      put_fd fd (FFile data (pos + len chunk));;; ret chunk
  | Some (FSock _ _) => raise (OSError EINVAL)
  | None => raise (OSError EBADF)
  end.

(** [open(path)]: a new descriptor on the file, or [FileNotFoundError]. *)
Definition py_open (path : string) : M Z :=
  emit (EvOpen path);;;
  fun w =>
    match w_fs w !! path with
    | Some data =>
        let fd := fresh_fd (w_fds w) in
        (Ok fd, set_fds (insert fd (FFile data 0)) w)
    | None => (Raise (OSError ENOENT), w)
    end.

(** [fcntl.flock(fd, fcntl.LOCK_SH)]. *)
Definition fcntl_flock (fd : Z) : M unit :=
  emit (EvFlock fd);;;
  o <- get_fd fd;;
  match o with
  | Some _ => ret tt
  | None => raise (OSError EBADF)
  end.

(** [os.fstat(fd).st_size]. *)
Definition os_fstat_st_size (fd : Z) : M Z :=
  emit (EvFstat fd);;;
  o <- get_fd fd;;
  match o with
  | Some (FFile data _) => ret (len data)
  | Some _ => ret 0
  | None => raise (OSError EBADF)
  end.

Definition print (line : string) : M unit := emit (EvPrint line).

End Syscalls.

(** ** The program *)

Definition AF_ALG : Z := 38.
Definition SOL_ALG : Z := 279.
Definition ALG_SET_KEY : Z := 1.
Definition SOCK_SEQPACKET : Z := 5.
Definition ALG_TYPE : bytes := list_byte_of_string "hash".

(** [_sockaddr_alg]. *)
Record sockaddr_alg := {
  salg_family : Z;
  salg_type : bytes;
  salg_feat : Z;
  salg_mask : Z;
  salg_name : bytes
}.

(** [HashDescriptor]. *)
Record HashDescriptor := {
  fileno : Z;
  digestsize : Z
}.

(** Which [prepare] classmethod a class resolves to. *)
Inductive prepare_impl := Prepare_Hash | Prepare_HashCRC32C.

(** A concrete algorithm class: a proper subclass of [Hash] with its class
    attributes and its own subclasses.  [Hash] itself has no name and is
    neither registered nor instantiated by the program. *)
#[warnings="-register-all"]
Inductive pyclass := PyClass {
  ALG_NAME : bytes;
  ALG_BYTE : Z;
  cls_prepare : prepare_impl;
  subclasses : list pyclass
}.

Definition HashCRC32C : pyclass :=
  PyClass (list_byte_of_string "crc32c") 4 Prepare_HashCRC32C [].
Definition HashMD5 : pyclass :=
  PyClass (list_byte_of_string "md5") 16 Prepare_Hash [].
Definition HashSHA1 : pyclass :=
  PyClass (list_byte_of_string "sha1") 20 Prepare_Hash [].
Definition HashSHA224 : pyclass :=
  PyClass (list_byte_of_string "sha224") 28 Prepare_Hash [].
Definition HashSHA256 : pyclass :=
  PyClass (list_byte_of_string "sha256") 32 Prepare_Hash [].

(** [Hash.__subclasses__()], in definition order. *)
Definition Hash_subclasses : list pyclass :=
  [HashCRC32C; HashMD5; HashSHA1; HashSHA224; HashSHA256].

(** [bytes.decode()] on an ASCII name. *)
Definition decode (b : bytes) : string := string_of_list_byte b.

(** [c.algorithm()] for a registered class [c]: the loop over
    [c.__subclasses__()], [d.update(...)] then [d[name] = c']. *)
Fixpoint cls_algorithm (c : pyclass) : gmap string pyclass :=
  fold_left
    (fun d c' => <[decode (ALG_NAME c') := c']> (cls_algorithm c' ∪ d))
    (subclasses c) ∅.

(** [Hash.algorithm()]. *)
Definition Hash_algorithm : gmap string pyclass :=
  fold_left
    (fun d c' => <[decode (ALG_NAME c') := c']> (cls_algorithm c' ∪ d))
    Hash_subclasses ∅.

(** A [Hash] instance: its class and [self.sock]. *)
Record Hash := {
  h_class : pyclass;
  h_sock : Z
}.

(** [codecs.encode(b, 'hex').decode()]. *)
Definition hex_digit (n : N) : Ascii.ascii :=
  match String.get (N.to_nat n) "0123456789abcdef" with
  | Some c => c
  | None => "0"%char
  end.

Fixpoint hexlify (b : bytes) : string :=
  match b with
  | [] => EmptyString
  | x :: b' =>
      let n := Byte.to_N x in
      String (hex_digit (n / 16)) (String (hex_digit (n mod 16)) (hexlify b'))
  end.

Section Program.

Variable K : Kernel.

(** The [while size < self.digestsize] loop of [HashDescriptor.digest]. *)
Fixpoint digest_loop (fuel : nat) (self : HashDescriptor) (size : Z)
    (buff : bytes) : M bytes :=
  if size <? digestsize self then
    match fuel with
    | O => out_of_fuel
    | S fuel' =>
        b <- os_read K (fileno self) (digestsize self - size);;
        digest_loop fuel' self (size + len b) (buff ++ b)
    end
  else ret buff.

(** [HashDescriptor.digest(self, fileno, size)]. *)
Definition HashDescriptor_digest (fuel : nat) (self : HashDescriptor)
    (fileno' size : Z) : M bytes :=
  os_sendfile (fileno self) fileno' size;;;
  os_lseek fileno' 0;;;
  digest_loop fuel self 0 [].

(** [Hash.prepare]. *)
Definition Hash_prepare (sock : Z) : M Z := ret sock.

(** [HashCRC32C.prepare]. *)
Definition HashCRC32C_prepare (cls : pyclass) (sock : Z) : M Z :=
  r <- libc_setsockopt K sock SOL_ALG ALG_SET_KEY
         (bytes_repeat xff (ALG_BYTE cls)) (ALG_BYTE cls);;
  if r <? 0 then
    n <- ctypes_get_errno;;
    socket_close sock;;;
    raise (OSError n)
  else ret sock.

(** [self.prepare(sock)]. *)
Definition prepare (cls : pyclass) (sock : Z) : M Z :=
  match cls_prepare cls with
  | Prepare_Hash => Hash_prepare sock
  | Prepare_HashCRC32C => HashCRC32C_prepare cls sock
  end.

(** [Hash.__init__], run for class [cls]. *)
Definition Hash_init (cls : pyclass) : M Hash :=
  sock <- socket_socket K AF_ALG SOCK_SEQPACKET 0;;
  let algo := {| salg_family := AF_ALG; salg_type := ALG_TYPE; salg_feat := 0;
                 salg_mask := 0; salg_name := ALG_NAME cls |} in
  r <- libc_bind K sock (salg_type algo) (salg_name algo);;
  if r <? 0 then
    n <- ctypes_get_errno;;
    socket_close sock;;;
    raise (OSError n)
  else
    s <- prepare cls sock;;
    ret {| h_class := cls; h_sock := s |}.

(** [Hash.__del__]. *)
Definition Hash_del (self : Hash) : M unit := socket_close (h_sock self).

(** [with self.open() as desc: body].  [_libc.accept] is a foreign call that
    returns an integer and never raises, so [fileno] is bound when the
    [finally] clause runs. *)
Definition Hash_open {A} (self : Hash) (body : HashDescriptor → M A) : M A :=
  fileno' <- libc_accept K (h_sock self);;
  try_finally
    (if fileno' <? 0 then
       n <- ctypes_get_errno;;
       raise (OSError n)
     else body {| fileno := fileno'; digestsize := ALG_BYTE (h_class self) |})
    (if fileno' >=? 0 then os_close fileno' else ret tt).

(** [Hash.instance(name)]: [cls.algorithm()[name]()]. *)
Definition Hash_instance (name : string) : M Hash :=
  match Hash_algorithm !! name with
  | Some c => Hash_init c
  | None => raise (KeyError name)
  end.

(** The body of [for path in args.files]. *)
Definition main_file (fuel : nat) (desc : HashDescriptor) (path : string)
  : M unit :=
  fp <- py_open path;;
  try_finally
    (let fileno' := fp in
     fcntl_flock fileno';;;
     st_size <- os_fstat_st_size fileno';;
     digest <- HashDescriptor_digest fuel desc fileno' st_size;;
     print (hexlify digest +:+ " " +:+ "" +:+ " " +:+ path))
    (os_close fp).

Fixpoint main_files (fuel : nat) (desc : HashDescriptor) (files : list string)
  : M unit :=
  match files with
  | [] => ret tt
  | path :: files' => main_file fuel desc path;;; main_files fuel desc files'
  end.

(** [main], after [argparse] produced [args.algorithm] and [args.files].
    [choices=digs] rejects a name outside the registry with exit status 2;
    [sorted] only fixes the order of the names in the help text.  When the
    [with] statement ends normally the last reference to the [Hash] object
    goes and [__del__] runs; a run that ends in an exception is followed up to
    the point where the exception leaves [main]. *)
Definition main (fuel : nat) (algorithm : string) (files : list string)
  : M unit :=
  let digs := elements (dom Hash_algorithm) in
  if bool_decide (algorithm ∈ digs) then
    h <- Hash_instance algorithm;;
    Hash_open h (fun desc => main_files fuel desc files);;;
    Hash_del h
  else raise (SystemExit 2).

End Program.

(** ** Sample kernels and worlds, for running the model *)

Definition EIO : Z := 5.

(** A stand-in for a transform: every output byte is the byte sum of the key
    and the message. *)
Definition checksum (key : option bytes) (msg : bytes) : byte :=
  let total :=
    fold_left (fun a x => (a + Byte.to_N x)%N) (default [] key ++ msg) 0%N in
  default x00 (Byte.of_N (total mod 256)).

(** Grants every call; a read delivers all the bytes asked for. *)
Definition K_full : Kernel := {|
  k_socket := fun _ => None;
  k_bind := fun _ _ => None;
  k_setsockopt := fun _ _ _ _ _ => None;
  k_accept := fun _ => None;
  k_read := fun _ key msg _ n => RData (repeat (checksum key msg) (Z.to_nat n))
|}.

(** As [K_full], but a read delivers one byte at a time. *)
Definition K_short : Kernel := {|
  k_socket := fun _ => None;
  k_bind := fun _ _ => None;
  k_setsockopt := fun _ _ _ _ _ => None;
  k_accept := fun _ => None;
  k_read := fun _ key msg _ _ => RData [checksum key msg]
|}.

(** As [K_full], but every read reports end of stream. *)
Definition K_eof : Kernel := {|
  k_socket := fun _ => None;
  k_bind := fun _ _ => None;
  k_setsockopt := fun _ _ _ _ _ => None;
  k_accept := fun _ => None;
  k_read := fun _ _ _ _ _ => RData []
|}.


(** As [K_full], but every read fails with EIO. *)
Definition K_read_error : Kernel := {|
  k_socket := fun _ => None;
  k_bind := fun _ _ => None;
  k_setsockopt := fun _ _ _ _ _ => None;
  k_accept := fun _ => None;
  k_read := fun _ _ _ _ _ => RErr EIO
|}.

(** The kernel lacks every transform: bind is refused with ENOENT. *)
Definition K_no_transform : Kernel := {|
  k_socket := fun _ => None;
  k_bind := fun _ _ => Some ENOENT;
  k_setsockopt := fun _ _ _ _ _ => None;
  k_accept := fun _ => None;
  k_read := fun _ _ _ _ _ => RErr EIO
|}.

(** The kernel rejects every key with EINVAL. *)
Definition K_no_key : Kernel := {|
  k_socket := fun _ => None;
  k_bind := fun _ _ => None;
  k_setsockopt := fun _ _ _ _ _ => Some EINVAL;
  k_accept := fun _ => None;
  k_read := fun _ _ _ _ _ => RErr EIO
|}.

(** No descriptor open; two files on disk. *)
Definition w0 : World := {|
  w_fds := ∅;
  w_fs := {[ "a" := list_byte_of_string "abc";
             "b" := list_byte_of_string "hello" ]};
  w_errno := 0;
  w_trace := []
|}.

(** ** Vocabulary of the statements *)

(** Every read on a session returns between 1 and the requested number of
    bytes. *)
Definition reads_deliver (K : Kernel) : Prop :=
  ∀ name key msg i n, 0 < n →
    ∃ b, k_read K name key msg i n = RData b ∧ 1 ≤ len b ≤ n.


(** A descriptor of the world is a session. *)
Definition is_session (w : World) (fd : Z) : Prop :=
  ∃ name key msg i, w_fds w !! fd = Some (FSession name key msg i).


(** A session with no input pending: nothing transferred yet, or the output
    of the last message already read. *)
Definition session_idle (w : World) (fd : Z) : Prop :=
  ∃ name key msg i,
    w_fds w !! fd = Some (FSession name key msg i) ∧ (msg = [] ∨ (0 < i)%nat).

(** An open file with its read position at [pos]. *)
Definition file_at (w : World) (fd pos : Z) : Prop :=
  ∃ data, w_fds w !! fd = Some (FFile data pos).

Definition is_read (e : event) : bool :=
  match e with
  | EvRead _ _ => true
  | _ => false
  end.

Definition is_sendfile (e : event) : bool :=
  match e with
  | EvSendfile _ _ _ => true
  | _ => false
  end.

Definition is_accept (e : event) : bool :=
  match e with
  | EvAccept _ => true
  | _ => false
  end.

Definition is_socket (e : event) : bool :=
  match e with
  | EvSocket _ _ _ => true
  | _ => false
  end.

(** A world in the middle of a run: the md5 transform socket is descriptor 0,
    a session derived from it is 1, and file "a" is open as 2. *)
Definition w_open : World := {|
  w_fds := {[ 0 := FSock (Some (ALG_TYPE, ALG_NAME HashMD5)) None;
              1 := FSession (ALG_NAME HashMD5) None [] 0;
              2 := FFile (list_byte_of_string "abc") 0 ]};
  w_fs := w_fs w0;
  w_errno := 0;
  w_trace := []
|}.

(** The descriptor [Hash.open] yields in [w_open]. *)
Definition desc_md5 : HashDescriptor := {| fileno := 1; digestsize := 16 |}.

(** How many events of a trace satisfy [p]. *)
Fixpoint count_events (p : event → bool) (tr : list event) : nat :=
  match tr with
  | [] => O
  | e :: tr' => ((if p e then 1 else 0) + count_events p tr')%nat
  end.

(** What may happen while the session [s] is in use for the files of a run:
    no socket is created, no further session accepted, [s] is not closed, and
    every transfer goes into [s]. *)
Definition body_event (s : Z) (e : event) : Prop :=
  match e with
  | EvSocket _ _ _ => False
  | EvAccept _ => False
  | EvClose fd => fd ≠ s
  | EvSendfile out_fd _ _ => out_fd = s
  | _ => True
  end.

(** ** Vocabulary for the registry and the printed lines *)

(** One round of the loop of [algorithm]: [d.update(c'.algorithm())] then
    [d[c'.ALG_NAME.decode()] = c']. *)
Definition register (d : gmap string pyclass) (c' : pyclass)
  : gmap string pyclass :=
  <[decode (ALG_NAME c') := c']> (cls_algorithm c' ∪ d).

(** [x] has [c] among its base classes, directly or through other classes. *)
Inductive descendant : pyclass → pyclass → Prop :=
| descendant_child c x :
    x ∈ subclasses c → descendant x c
| descendant_deeper c c' x :
    c' ∈ subclasses c → descendant x c' → descendant x c.

(** [x] is one of the classes [roots] or derives from one. *)
Definition derives_from (roots : list pyclass) (x : pyclass) : Prop :=
  ∃ c', c' ∈ roots ∧ (x = c' ∨ descendant x c').

(** The position of a character in an alphabet, counted from [n]. *)
Fixpoint position (a : ascii) (alphabet : string) (n : N) : option N :=
  match alphabet with
  | EmptyString => None
  | String c rest =>
      if Ascii.eqb a c then Some n else position a rest (n + 1)%N
  end.

(** The value of a lowercase hexadecimal digit: its place among the digits
    [hex_digit] draws from. *)
Definition unhex_digit (a : ascii) : option N :=
  position a "0123456789abcdef" 0%N.

(** Reading back what [hexlify] writes: two digits a byte. *)
Fixpoint unhexlify (s : string) : option bytes :=
  match s with
  | EmptyString => Some []
  | String a (String b s') =>
      match unhex_digit a, unhex_digit b, unhexlify s' with
      | Some hi, Some lo, Some rest =>
          match Byte.of_N (16 * hi + lo) with
          | Some x => Some (x :: rest)
          | None => None
          end
      | _, _, _ => None
      end
  | String _ EmptyString => None
  end.

(** ** Vocabulary for descriptors across a call *)

(** Two states of one descriptor slot that differ at most in what reading and
    transferring change: a session's message and read count, a file's
    offset. *)
Definition fdobj_like (a b : option fdobj) : Prop :=
  match a, b with
  | None, None => True
  | Some (FSock addr key), Some (FSock addr' key') =>
      addr = addr' ∧ key = key'
  | Some (FSession name key _ _), Some (FSession name' key' _ _) =>
      name = name' ∧ key = key'
  | Some (FFile data _), Some (FFile data' _) => data = data'
  | _, _ => False
  end.

(** From [w] to [w'] only the descriptors [s] and [f] were worked on, and
    they were neither closed nor replaced. *)
Definition touches_only (s f : Z) (w w' : World) : Prop :=
  w_fs w' = w_fs w ∧
  w_errno w' = w_errno w ∧
  (∀ k, k ≠ s → k ≠ f → w_fds w' !! k = w_fds w !! k) ∧
  (∀ k, fdobj_like (w_fds w !! k) (w_fds w' !! k)).



(** As [K_full], but every accept is refused with EMFILE. *)
Definition EMFILE : Z := 24.

Definition K_no_accept : Kernel := {|
  k_socket := fun _ => None;
  k_bind := fun _ _ => None;
  k_setsockopt := fun _ _ _ _ _ => None;
  k_accept := fun _ => Some EMFILE;
  k_read := fun _ key msg _ n => RData (repeat (checksum key msg) (Z.to_nat n))
|}.

(** The key a session of class [c] works with: none, or what
    [HashCRC32C.prepare] sets. *)
Definition class_key (c : pyclass) : option bytes :=
  match cls_prepare c with
  | Prepare_Hash => None
  | Prepare_HashCRC32C =>
      Some (firstn (Z.to_nat (ALG_BYTE c)) (bytes_repeat xff (ALG_BYTE c)))
  end.

(** The line [main] prints for a file. *)
Definition output_line (digest : bytes) (path : string) : string :=
  hexlify digest +:+ " " +:+ "" +:+ " " +:+ path.

(** The lines printed in a trace, in order. *)
Fixpoint printed (tr : list event) : list string :=
  match tr with
  | [] => []
  | EvPrint line :: tr' => line :: printed tr'
  | _ :: tr' => printed tr'
  end.

Definition is_open (e : event) : bool :=
  match e with
  | EvOpen _ => true
  | _ => false
  end.

(** Every run of [m] relates the world before to the world after by [R]. *)
Definition keeps {A} (R : World → World → Prop) (m : M A) : Prop :=
  ∀ w o w', m w = (o, w') → R w w'.

(** From [w] to [w'] nothing changed but the session [s], which is still a
    session of the transform [name] with key [key]. *)
Definition session_frame (s : Z) (name : bytes) (key : option bytes)
    (w w' : World) : Prop :=
  w_fs w' = w_fs w ∧
  (∀ k, k ≠ s → w_fds w' !! k = w_fds w !! k) ∧
  ∃ msg j, w_fds w' !! s = Some (FSession name key msg j).

(** * Properties *)

(** ** Running a computation step by step *)

Lemma bind_Ok {A B} (m : M A) (f : A → M B) w b w' :
  bind m f w = (Ok b, w') →
  ∃ a w1, m w = (Ok a, w1) ∧ f a w1 = (Ok b, w').
Proof.
  unfold bind. destruct (m w) as [[a | e |] w1]; intros H; try discriminate.
  eauto.
Qed.

Lemma bind_run {A B} (m : M A) (f : A → M B) w a w1 :
  m w = (Ok a, w1) → bind m f w = f a w1.
Proof. unfold bind. intros ->. reflexivity. Qed.


(** Unfolds one system call down to the state function it denotes. *)
Ltac run_call :=
  unfold os_read, os_sendfile, os_lseek, os_close, socket_close, socket_socket,
    libc_bind, libc_setsockopt, libc_accept, libc_fail, py_open, fcntl_flock,
    os_fstat_st_size, print, ctypes_get_errno, bind, emit, get_fd, put_fd,
    drop_fd, raise, ret, out_of_fuel in *;
  cbn [w_fds w_fs w_errno w_trace log set_fds set_errno] in *.

(** Simplifies a run without unfolding the program's constants. *)
Ltac quiet_cbn :=
  unfold set_fds, log, set_errno in *;
  cbn -[ALG_TYPE SOL_ALG ALG_SET_KEY AF_ALG SOCK_SEQPACKET bytes_repeat
        fresh_fd file_chunk len absorb] in *.

Section CallLemmas.

Variable K : Kernel.

(** A read on a session descriptor: the kernel's reply, one more read served. *)
Lemma os_read_session fd n w name key msg i :
  w_fds w !! fd = Some (FSession name key msg i) →
  os_read K fd n w =
    match k_read K name key msg i n with
    | RData b =>
        (Ok b, set_fds (insert fd (FSession name key msg (S i)))
                 (log (EvRead fd n) w))
    | RErr e => (Raise (OSError e), log (EvRead fd n) w)
    end.
Proof. intros H. run_call. rewrite H. destruct (k_read _ _ _ _ _ _); done. Qed.

(** Every read issues exactly one event, whatever it is applied to. *)
Lemma os_read_trace fd n w o w' :
  os_read K fd n w = (o, w') → w_trace w' = w_trace w ++ [EvRead fd n].
Proof.
  run_call. intros H. repeat case_match; simplify_eq; reflexivity.
Qed.



Lemma os_lseek_trace fd pos w o w' :
  os_lseek fd pos w = (o, w') → w_trace w' = w_trace w ++ [EvLseek fd pos].
Proof.
  run_call. intros H. repeat case_match; simplify_eq; reflexivity.
Qed.

End CallLemmas.

(** ** The digest loop *)

Section DigestLoop.

Variable K : Kernel.



(** With reads that make progress the loop needs no more iterations than
    bytes are missing. *)
Lemma digest_loop_finishes self :
  reads_deliver K →
  ∀ fuel size buff w,
    is_session w (fileno self) →
    (Z.to_nat (digestsize self - size) ≤ fuel)%nat →
    ∃ b w' reads,
      digest_loop K fuel self size buff w = (Ok b, w') ∧
      w_trace w' = w_trace w ++ reads ∧
      (length reads ≤ Z.to_nat (digestsize self - size))%nat ∧
      is_session w' (fileno self).
Proof.
  intros HK. induction fuel as [| fuel IH]; intros size buff w Hs Hfuel;
    cbn [digest_loop]; destruct (Z.ltb_spec size (digestsize self));
    try lia;
    try (exists buff, w, []; rewrite app_nil_r; repeat split;
         [cbn; lia | done]).
  destruct Hs as (name & key & msg & i & Hfd).
  destruct (HK name key msg i (digestsize self - size)) as (c & Hc & Hlen);
    [lia |].
  pose proof (os_read_session K (fileno self) (digestsize self - size)
                w name key msg i Hfd) as Hread.
  rewrite Hc in Hread.
  rewrite (bind_run _ _ _ _ _ Hread).
  edestruct (IH (size + len c) (buff ++ c)) as (b & w' & reads & Hrun & Htr & Hn & Hs');
    [| | rewrite Hrun].
  - exists name, key, msg, (S i). cbn. apply lookup_insert_eq.
  - lia.
  - exists b, w', (EvRead (fileno self) (digestsize self - size) :: reads).
    repeat split; [| cbn [length]; lia | done].
    rewrite Htr. cbn. by rewrite <- app_assoc.
Qed.

(** A read that delivers nothing leaves the loop where it was: with such
    reads only, no budget of iterations is enough. *)
Lemma digest_loop_stuck self name key msg :
  (∀ i n, k_read K name key msg i n = RData []) →
  ∀ fuel size buff w i,
    w_fds w !! fileno self = Some (FSession name key msg i) →
    size < digestsize self →
    ∃ w', digest_loop K fuel self size buff w = (OutOfFuel, w') ∧
      w_trace w' = w_trace w ++
        repeat (EvRead (fileno self) (digestsize self - size)) fuel.
Proof.
  intros HK. induction fuel as [| fuel IH]; intros size buff w i Hfd Hlt;
    cbn [digest_loop]; destruct (Z.ltb_spec size (digestsize self)); try lia.
  - exists w. split; [done |]. cbn. by rewrite app_nil_r.
  - pose proof (os_read_session K (fileno self) (digestsize self - size)
                  w name key msg i Hfd) as Hread.
    rewrite HK in Hread. rewrite (bind_run _ _ _ _ _ Hread).
    cbn [len length]. rewrite Z.add_0_r, app_nil_r.
    edestruct (IH size buff) as (w' & Hrun & Htr); [| done | rewrite Hrun].
    + cbn. apply lookup_insert_eq.
    + exists w'. split; [done |]. rewrite Htr. cbn.
      by rewrite <- app_assoc.
Qed.

End DigestLoop.

(** ** One call of [digest] *)

Section Digest.

Variable K : Kernel.

Lemma os_sendfile_Ok_inv out_fd in_fd count w r w1 :
  os_sendfile out_fd in_fd count w = (Ok r, w1) →
  ∃ name key msg i data pos,
    w_fds w !! out_fd = Some (FSession name key msg i) ∧
    w_fds w !! in_fd = Some (FFile data pos).
Proof.
  run_call. intros H.
  destruct (w_fds w !! in_fd) as [[a1 k1|n1 k1 m1 i1|data pos]|] eqn:Hin;
    destruct (w_fds w !! out_fd) as [[a2 k2|name key msg i|d2 p2]|] eqn:Hout;
    simplify_eq.
  by exists name, key, msg, i, data, pos.
Qed.

Lemma session_not_file w s f name key msg i data pos :
  w_fds w !! s = Some (FSession name key msg i) →
  w_fds w !! f = Some (FFile data pos) → s ≠ f.
Proof. intros Hs Hf ->. rewrite Hs in Hf. discriminate. Qed.

(** The straight-line part of [digest]: transfer, then rewind.  The loop
    starts in a world where the session holds the whole transferred chunk and
    the input is back at offset 0. *)
Lemma digest_enter fuel self f size w name key msg i data pos :
  w_fds w !! fileno self = Some (FSession name key msg i) →
  w_fds w !! f = Some (FFile data pos) →
  ∃ w2,
    HashDescriptor_digest K fuel self f size w =
      digest_loop K fuel self 0 [] w2 ∧
    w_fds w2 !! fileno self =
      Some (FSession name key (absorb msg i (file_chunk data pos size)) 0) ∧
    w_fds w2 !! f = Some (FFile data 0) ∧
    w_trace w2 =
      w_trace w ++ [EvSendfile (fileno self) f size; EvLseek f 0].
Proof.
  intros Hs Hf. pose proof (session_not_file _ _ _ _ _ _ _ _ _ Hs Hf) as Hne.
  unfold HashDescriptor_digest. run_call. rewrite Hf, Hs. cbn.
  rewrite lookup_insert_ne, lookup_insert_eq by done. cbn.
  eexists. split; [reflexivity |]. cbn.
  rewrite lookup_insert_ne, lookup_insert_eq by done.
  rewrite lookup_insert_eq, <- app_assoc. done.
Qed.

(** The loop touches nothing but the session it reads from, and there only
    the count of reads served. *)
Lemma digest_loop_frame self name key msg :
  ∀ fuel size buff w i o w',
    w_fds w !! fileno self = Some (FSession name key msg i) →
    digest_loop K fuel self size buff w = (o, w') →
    ∃ j, (i ≤ j)%nat ∧
      w_fds w' = <[fileno self := FSession name key msg j]> (w_fds w) ∧
      (size < digestsize self → (∃ b, o = Ok b) → (i < j)%nat).
Proof.
  induction fuel as [| fuel IH]; intros size buff w i o w' Hs H;
    cbn [digest_loop] in H; destruct (Z.ltb_spec size (digestsize self));
    try (unfold out_of_fuel, ret in H; inversion H; subst; exists i;
         split; [lia |]; split;
         [by rewrite insert_id | intros ? [? ?]; (lia || discriminate)]).
  unfold bind in H. rewrite os_read_session with (1 := Hs) in H.
  destruct (k_read _ _ _ _ _ _) as [c | e].
  - eapply IH in H as (j & Hij & Hfds & _); [| cbn; apply lookup_insert_eq].
    cbn in Hfds. rewrite insert_insert_eq in Hfds.
    exists j. split; [lia |]. split; [done | lia].
  - inversion H; subst. exists i. split; [lia |]. split;
      [by cbn; rewrite insert_id | intros ? [? ?]; discriminate].
Qed.

(** The outcome of the loop is decided by the session's transform, key,
    message and read count alone. *)
Lemma digest_loop_deterministic self name key msg :
  ∀ fuel size buff w v i,
    w_fds w !! fileno self = Some (FSession name key msg i) →
    w_fds v !! fileno self = Some (FSession name key msg i) →
    (digest_loop K fuel self size buff w).1 =
    (digest_loop K fuel self size buff v).1.
Proof.
  induction fuel as [| fuel IH]; intros size buff w v i Hw Hv;
    cbn [digest_loop]; destruct (Z.ltb_spec size (digestsize self));
    try reflexivity.
  unfold bind. rewrite (os_read_session K _ _ _ _ _ _ _ Hw),
    (os_read_session K _ _ _ _ _ _ _ Hv).
  destruct (k_read _ _ _ _ _ _) as [c | e]; [| reflexivity].
  apply IH with (i := S i); cbn; apply lookup_insert_eq.
Qed.

(** The loop issues reads and nothing else. *)
Lemma digest_loop_reads_only self :
  ∀ fuel size buff w o w',
    digest_loop K fuel self size buff w = (o, w') →
    ∃ reads, w_trace w' = w_trace w ++ reads ∧
      Forall (λ e, is_read e = true) reads.
Proof.
  induction fuel as [| fuel IH]; intros size buff w o w' H;
    cbn [digest_loop] in H; destruct (Z.ltb_spec size (digestsize self));
    try (unfold out_of_fuel, ret in H; inversion H; subst; exists [];
         by rewrite app_nil_r).
  unfold bind in H.
  destruct (os_read K _ _ w) as [[c | e |] w1] eqn:Hread;
    apply os_read_trace in Hread.
  - apply IH in H as (reads & Htr & Hall).
    exists (EvRead (fileno self) (digestsize self - size) :: reads).
    split; [| by constructor].
    rewrite Htr, Hread. by rewrite <- app_assoc.
  - inversion H; subst. eexists [_]. split; [done | by repeat constructor].
  - inversion H; subst. eexists [_]. split; [done | by repeat constructor].
Qed.

End Digest.

(** ** Reading the digest: length, errors, end of stream *)

Lemma K_full_reads_deliver : reads_deliver K_full.
Proof.
  intros name key msg i n Hn. eexists. split; [reflexivity |].
  unfold len. rewrite repeat_length. lia.
Qed.

Lemma K_short_reads_deliver : reads_deliver K_short.
Proof.
  intros name key msg i n Hn. eexists. split; [reflexivity |].
  unfold len. cbn [length]. lia.
Qed.



Section ReadScript.

Variable K : Kernel.



Lemma digest_loop_done self fuel size buff w :
  digestsize self ≤ size →
  digest_loop K fuel self size buff w = (Ok buff, w).
Proof.
  intros Hge. destruct fuel; cbn [digest_loop];
    destruct (Z.ltb_spec size (digestsize self)); (lia || reflexivity).
Qed.



End ReadScript.






(** C10: for a session of digest size [d], when every read returns at least
    1 and at most the requested number of bytes the accumulation loop ends
    after at most [d] iterations (one read each); when reads return zero
    bytes the loop makes no progress, asking for the same [d] bytes again and
    again, and no number of iterations ends it. *)
Theorem digest_loop_termination self w name key msg i :
  w_fds w !! fileno self = Some (FSession name key msg i) →
  (∀ K fuel,
     reads_deliver K →
     (Z.to_nat (digestsize self) ≤ fuel)%nat →
     ∃ b w' reads,
       digest_loop K fuel self 0 [] w = (Ok b, w') ∧
       w_trace w' = w_trace w ++ reads ∧
       (length reads ≤ Z.to_nat (digestsize self))%nat) ∧
  (∀ K fuel,
     (∀ j n, k_read K name key msg j n = RData []) →
     0 < digestsize self →
     ∃ w', digest_loop K fuel self 0 [] w = (OutOfFuel, w') ∧
       w_trace w' = w_trace w ++
         repeat (EvRead (fileno self) (digestsize self)) fuel).
Proof.
  intros Hs. split.
  - intros K fuel HK Hfuel.
    destruct (digest_loop_finishes K self HK fuel 0 [] w)
      as (b & w' & reads & Hrun & Htr & Hn & _).
    + by exists name, key, msg, i.
    + by rewrite Z.sub_0_r.
    + rewrite Z.sub_0_r in Hn. by exists b, w', reads.
  - intros K fuel HK Hd.
    destruct (digest_loop_stuck K self name key msg HK fuel 0 [] w i Hs Hd)
      as (w' & Hrun & Htr).
    rewrite Z.sub_0_r in Htr. by exists w'.
Qed.

Lemma digest_loop_termination_witness :
  (∃ b w', digest_loop K_short 16 desc_md5 0 [] w_open = (Ok b, w') ∧
     (length (w_trace w') ≤ 16)%nat) ∧
  (digest_loop K_eof 1000 desc_md5 0 [] w_open).1 = OutOfFuel.
Proof.
  pose proof (digest_loop_termination desc_md5 w_open (ALG_NAME HashMD5) None
                [] 0%nat eq_refl) as [Hfin Hstuck].
  split.
  - destruct (Hfin K_short 16%nat K_short_reads_deliver) as
      (b & w' & reads & Hrun & Htr & Hn); [cbn; lia |].
    exists b, w'. split; [done |]. rewrite Htr. cbn in *. lia.
  - destruct (Hstuck K_eof 1000%nat) as (w' & Hrun & _);
      [reflexivity | cbn; lia |]. by rewrite Hrun.
Defined.

(** ** The input descriptor and the order of the calls *)

Section Rewind.

Variable K : Kernel.

Lemma absorb_idle (msg : bytes) i chunk :
  msg = [] ∨ (0 < i)%nat → absorb msg i chunk = chunk.
Proof. intros [-> | Hi]; destruct i; (reflexivity || lia). Qed.

(** A call that returns went through a session and a file, and leaves the
    world of its loop with only the session's read count changed. *)
Lemma digest_Ok_inv fuel self f size w b w1 :
  HashDescriptor_digest K fuel self f size w = (Ok b, w1) →
  ∃ name key msg i data pos w2 j,
    w_fds w !! fileno self = Some (FSession name key msg i) ∧
    w_fds w !! f = Some (FFile data pos) ∧
    digest_loop K fuel self 0 [] w2 = (Ok b, w1) ∧
    w_fds w2 !! fileno self =
      Some (FSession name key (absorb msg i (file_chunk data pos size)) 0) ∧
    w_fds w1 !! fileno self =
      Some (FSession name key (absorb msg i (file_chunk data pos size)) j) ∧
    w_fds w1 !! f = Some (FFile data 0) ∧
    (0 < digestsize self → (0 < j)%nat).
Proof.
  intros H. pose proof H as H'. apply bind_Ok in H' as (r & w' & Hsend & _).
  apply os_sendfile_Ok_inv in Hsend
    as (name & key & msg & i & data & pos & Hs & Hf).
  destruct (digest_enter K fuel self f size w _ _ _ _ _ _ Hs Hf)
    as (w2 & Heq & Hs2 & Hf2 & _).
  rewrite Heq in H.
  destruct (digest_loop_frame K self _ _ _ _ _ _ _ _ _ _ Hs2 H)
    as (j & _ & Hfds & Hj).
  exists name, key, msg, i, data, pos, w2, j.
  repeat split; try done.
  - rewrite Hfds. apply lookup_insert_eq.
  - rewrite Hfds, lookup_insert_ne; [done |].
    eapply session_not_file; eauto.
  - intros Hd. apply Hj; eauto.
Qed.

End Rewind.

(** C4: every call of [digest] that returns has put the input descriptor
    back at offset 0, after the transfer and before returning; so when the
    input was at its start and the session had no input pending, a second call
    on the same descriptor reads the file from the beginning again and returns
    the same bytes. *)
Theorem digest_restores_offset K fuel self f size w b w1 :
  HashDescriptor_digest K fuel self f size w = (Ok b, w1) →
  file_at w1 f 0 ∧
  (∃ reads,
     w_trace w1 = w_trace w ++
       EvSendfile (fileno self) f size :: EvLseek f 0 :: reads ∧
     Forall (λ e, is_read e = true) reads) ∧
  (file_at w f 0 → session_idle w (fileno self) →
   ∃ w2, HashDescriptor_digest K fuel self f size w1 = (Ok b, w2) ∧
     file_at w2 f 0).
Proof.
  intros H.
  destruct (digest_Ok_inv K _ _ _ _ _ _ _ H)
    as (name & key & msg & i & data & pos & w2 & j &
        Hs & Hf & Hloop & Hs2 & Hs1 & Hf1 & Hj).
  split; [by exists data |]. split.
  - destruct (digest_enter K fuel self f size w _ _ _ _ _ _ Hs Hf)
      as (w2' & Heq & _ & _ & Htr2).
    rewrite Heq in H.
    apply digest_loop_reads_only in H as (reads & Htr & Hall).
    exists reads. split; [| done]. rewrite Htr, Htr2. by rewrite <- app_assoc.
  - intros [data' Hf0] (name' & key' & msg' & i' & Hs' & Hidle).
    rewrite Hf in Hf0. rewrite Hs in Hs'. simplify_eq.
    rewrite (absorb_idle _ _ _ Hidle) in Hs1, Hs2.
    destruct (digest_enter K fuel self f size w1 _ _ _ _ _ _ Hs1 Hf1)
      as (w3 & Heq3 & Hs3 & _ & _).
    destruct (digest_loop K fuel self 0 [] w3) as [o w4] eqn:Hloop3.
    assert (o = Ok b) as ->.
    { destruct (Z.ltb_spec 0 (digestsize self)) as [Hd | Hd].
      - rewrite absorb_idle in Hs3 by (right; auto).
        pose proof (digest_loop_deterministic K self _ _ _ fuel 0 [] w3 w2 _
                      Hs3 Hs2) as Hdet.
        rewrite Hloop3, Hloop in Hdet. exact Hdet.
      - rewrite digest_loop_done in Hloop3, Hloop by done. congruence. }
    exists w4. split; [done |].
    destruct (digest_Ok_inv K _ _ _ _ _ _ _ Heq3)
      as (? & ? & ? & ? & data2 & ? & ? & ? & _ & _ & _ & _ & _ & Hf4 & _).
    by exists data2.
Qed.

Lemma digest_restores_offset_witness :
  ∃ b w1 w2,
    HashDescriptor_digest K_short 16 desc_md5 2 3 w_open = (Ok b, w1) ∧
    file_at w1 2 0 ∧
    HashDescriptor_digest K_short 16 desc_md5 2 3 w1 = (Ok b, w2).
Proof.
  destruct (HashDescriptor_digest K_short 16 desc_md5 2 3 w_open)
    as [o w1] eqn:Hrun.
  assert (∃ b, o = Ok b) as [b ->].
  { assert (o = (HashDescriptor_digest K_short 16 desc_md5 2 3 w_open).1)
      as -> by (by rewrite Hrun).
    eexists. vm_compute. reflexivity. }
  destruct (digest_restores_offset K_short 16 desc_md5 2 3 w_open b w1 Hrun)
    as (Hat & _ & Hagain).
  destruct Hagain as (w2 & Hrun2 & _).
  - eexists. reflexivity.
  - eexists _, _, _, _. split; [reflexivity | by left].
  - by exists b, w1, w2.
Defined.



(** ** Descriptor allocation *)

Lemma lowest_free_spec (t : gmap Z fdobj) :
  ∀ n c,
    c ≤ lowest_free t n c ≤ c + Z.of_nat n ∧
    (∀ k, c ≤ k < lowest_free t n c → is_Some (t !! k)) ∧
    (t !! lowest_free t n c = None ∨ lowest_free t n c = c + Z.of_nat n).
Proof.
  induction n as [| n IH]; intros c; cbn [lowest_free].
  - split; [lia |]. split; [intros; lia | right; lia].
  - destruct (t !! c) as [o |] eqn:Hc.
    + destruct (IH (c + 1)) as (Hr & Hall & Hend).
      split; [lia |]. split.
      * intros k Hk. destruct (decide (k = c)) as [-> | Hne]; [by eexists |].
        apply Hall. lia.
      * destruct Hend as [Hnone | Heq]; [by left | right; lia].
    + split; [lia |]. split; [intros; lia | by left].
Qed.

Lemma fresh_fd_nonneg (t : gmap Z fdobj) : 0 ≤ fresh_fd t.
Proof. unfold fresh_fd. destruct (lowest_free_spec t (size t) 0). lia. Qed.

(** The descriptor handed out is not in use: a table of [n] entries cannot
    hold all of [0..n]. *)
Lemma fresh_fd_free (t : gmap Z fdobj) : t !! fresh_fd t = None.
Proof.
  unfold fresh_fd.
  destruct (lowest_free_spec t (size t) 0) as (_ & Hall & [Hnone | Heq]);
    [done |].
  destruct (t !! lowest_free t (size t) 0) as [o |] eqn:Hlast; [| done].
  exfalso.
  set (X := list_to_set (Z.of_nat <$> seq 0 (S (size t))) : gset Z).
  assert (X ⊆ dom t) as Hsub.
  { intros k Hk. apply elem_of_list_to_set, list_elem_of_fmap in Hk
      as (k' & -> & Hk').
    apply elem_of_seq in Hk'. apply elem_of_dom.
    destruct (decide (Z.of_nat k' = lowest_free t (size t) 0)) as [-> | Hne];
      [by eexists |].
    apply Hall. lia. }
  apply subseteq_size in Hsub. rewrite size_dom in Hsub.
  unfold X in Hsub. rewrite size_list_to_set in Hsub.
  - rewrite length_fmap, length_seq in Hsub. lia.
  - apply NoDup_fmap_2; [apply _ | apply NoDup_seq].
Qed.

(** ** Constructing the transform socket *)

Section Construction.

Variable K : Kernel.

(** What [Hash.__init__] does once the socket exists, case by case on the
    kernel's answers to bind and to the key. *)
Lemma Hash_init_run cls w :
  k_socket K AF_ALG = None →
  let fd := fresh_fd (w_fds w) in
  let key := bytes_repeat xff (ALG_BYTE cls) in
  let bound := Some (ALG_TYPE, ALG_NAME cls) in
  let calls := [EvSocket AF_ALG SOCK_SEQPACKET 0;
                EvBind fd ALG_TYPE (ALG_NAME cls)] in
  let keying := EvSetsockopt fd SOL_ALG ALG_SET_KEY key (ALG_BYTE cls) in
  Hash_init K cls w =
    match k_bind K ALG_TYPE (ALG_NAME cls) with
    | Some n =>
        (Raise (OSError n),
         {| w_fds := w_fds w; w_fs := w_fs w; w_errno := n;
            w_trace := w_trace w ++ calls ++ [EvClose fd] |})
    | None =>
        match cls_prepare cls with
        | Prepare_Hash =>
            (Ok {| h_class := cls; h_sock := fd |},
             {| w_fds := <[fd := FSock bound None]> (w_fds w);
                w_fs := w_fs w; w_errno := w_errno w;
                w_trace := w_trace w ++ calls |})
        | Prepare_HashCRC32C =>
            match k_setsockopt K (ALG_NAME cls) SOL_ALG ALG_SET_KEY key
                    (ALG_BYTE cls) with
            | Some n =>
                (Raise (OSError n),
                 {| w_fds := w_fds w; w_fs := w_fs w; w_errno := n;
                    w_trace := w_trace w ++ calls ++ [keying; EvClose fd] |})
            | None =>
                (Ok {| h_class := cls; h_sock := fd |},
                 {| w_fds :=
                      <[fd := FSock bound
                                (Some (firstn (Z.to_nat (ALG_BYTE cls)) key))]>
                        (w_fds w);
                    w_fs := w_fs w; w_errno := w_errno w;
                    w_trace := w_trace w ++ calls ++ [keying] |})
            end
        end
    end.
Proof.
  intros Hsock fd key bound calls keying.
  pose proof (fresh_fd_free (w_fds w)) as Hfree. fold fd in Hfree.
  unfold Hash_init, prepare, Hash_prepare, HashCRC32C_prepare. run_call.
  rewrite Hsock. quiet_cbn. fold fd. rewrite lookup_insert_eq.
  destruct (k_bind K ALG_TYPE (ALG_NAME cls)) as [n |]; quiet_cbn.
  { rewrite delete_insert_eq, delete_id by done.
    unfold calls. by rewrite <- !app_assoc. }
  rewrite insert_insert_eq.
  destruct (cls_prepare cls); quiet_cbn.
  { unfold calls. by rewrite <- !app_assoc. }
  rewrite lookup_insert_eq. fold key.
  destruct (k_setsockopt K _ _ _ _ _) as [n |]; quiet_cbn.
  - rewrite delete_insert_eq, delete_id by done.
    unfold calls, keying. by rewrite <- !app_assoc.
  - rewrite insert_insert_eq. unfold calls, keying, bound.
    by rewrite <- !app_assoc.
Qed.

End Construction.

(** C5: a construction of the transform socket that fails leaves no
    descriptor behind.  When it fails at the bind step or at the keying step
    the socket is closed, as the last call issued, before the error is
    raised. *)
Theorem failed_construction_closes_socket K cls w e w' :
  Hash_init K cls w = (Raise e, w') →
  w_fds w' = w_fds w ∧
  (k_socket K AF_ALG = None →
   let fd := fresh_fd (w_fds w) in
   let key := bytes_repeat xff (ALG_BYTE cls) in
   ∃ n, e = OSError n ∧
     ((k_bind K ALG_TYPE (ALG_NAME cls) = Some n ∧
       w_trace w' = w_trace w ++
         [EvSocket AF_ALG SOCK_SEQPACKET 0; EvBind fd ALG_TYPE (ALG_NAME cls);
          EvClose fd]) ∨
      (k_bind K ALG_TYPE (ALG_NAME cls) = None ∧
       cls_prepare cls = Prepare_HashCRC32C ∧
       k_setsockopt K (ALG_NAME cls) SOL_ALG ALG_SET_KEY key (ALG_BYTE cls)
         = Some n ∧
       w_trace w' = w_trace w ++
         [EvSocket AF_ALG SOCK_SEQPACKET 0; EvBind fd ALG_TYPE (ALG_NAME cls);
          EvSetsockopt fd SOL_ALG ALG_SET_KEY key (ALG_BYTE cls);
          EvClose fd]))).
Proof.
  intros H. destruct (k_socket K AF_ALG) as [n |] eqn:Hsock.
  - unfold Hash_init in H. run_call. rewrite Hsock in H.
    inversion H; subst. split; [done | discriminate].
  - rewrite (Hash_init_run K cls w Hsock) in H. cbv zeta in H.
    destruct (k_bind K ALG_TYPE (ALG_NAME cls)) as [n |] eqn:Hbind.
    + inversion H; subst. split; [done |]. intros _. exists n.
      split; [done |]. by left.
    + destruct (cls_prepare cls) eqn:Hprep; [discriminate |].
      destruct (k_setsockopt K _ _ _ _ _) as [n |] eqn:Hkey; [| discriminate].
      inversion H; subst. split; [done |]. intros _. exists n.
      split; [done |]. by right.
Qed.

Lemma failed_construction_closes_socket_witness :
  (∃ w', Hash_init K_no_transform HashMD5 w_open = (Raise (OSError ENOENT), w')
         ∧ w_fds w' = w_fds w_open) ∧
  (∃ w', Hash_init K_no_key HashCRC32C w_open = (Raise (OSError EINVAL), w')
         ∧ w_fds w' = w_fds w_open).
Proof.
  split.
  - destruct (Hash_init K_no_transform HashMD5 w_open) as [o w'] eqn:Hrun.
    assert (o = Raise (OSError ENOENT)) as ->.
    { assert (o = (Hash_init K_no_transform HashMD5 w_open).1) as ->
        by (by rewrite Hrun).
      vm_compute. reflexivity. }
    exists w'. split; [done |].
    apply (failed_construction_closes_socket _ _ _ _ _ Hrun).
  - destruct (Hash_init K_no_key HashCRC32C w_open) as [o w'] eqn:Hrun.
    assert (o = Raise (OSError EINVAL)) as ->.
    { assert (o = (Hash_init K_no_key HashCRC32C w_open).1) as ->
        by (by rewrite Hrun).
      vm_compute. reflexivity. }
    exists w'. split; [done |].
    apply (failed_construction_closes_socket _ _ _ _ _ Hrun).
Defined.

(** ** The registry *)

(** C6: resolving a name that is not in the registry fails with [KeyError]
    (the program's unknown-algorithm error) and leaves the world as it was: no
    socket is created, bound, keyed or accepted on.  [main] does not get that
    far: the argument parser refuses the name. *)
Theorem unknown_algorithm_no_socket K name w :
  Hash_algorithm !! name = None →
  Hash_instance K name w = (Raise (KeyError name), w) ∧
  ∀ fuel files, main K fuel name files w = (Raise (SystemExit 2), w).
Proof.
  intros Hnone. split.
  - unfold Hash_instance. by rewrite Hnone.
  - intros fuel files. unfold main.
    rewrite bool_decide_eq_false_2; [done |].
    rewrite elem_of_elements, elem_of_dom, Hnone.
    by intros [? ?].
Qed.

Lemma unknown_algorithm_no_socket_witness :
  Hash_instance K_full "sha512" w0 = (Raise (KeyError "sha512"), w0).
Proof.
  apply (unknown_algorithm_no_socket K_full "sha512" w0). reflexivity.
Defined.

Lemma registry_digest_sizes :
  map_Forall (λ _ c, 0 < ALG_BYTE c) Hash_algorithm.
Proof.
  apply map_Forall_to_list. vm_compute. repeat constructor.
Qed.

Lemma accept_inherits_key K sock w name ty key s w1 :
  w_fds w !! sock = Some (FSock (Some (ty, name)) key) →
  libc_accept K sock w = (Ok s, w1) → 0 ≤ s →
  w_fds w1 !! s = Some (FSession name key [] 0).
Proof.
  intros Hsock H Hs. unfold libc_accept in H. run_call. rewrite Hsock in H.
  destruct (k_accept K _); inversion H; subst; [lia |].
  cbn. apply lookup_insert_eq.
Qed.

(** C7: the key of CRC32C is four 0xFF bytes, as many as its digest size.
    Constructing its transform socket sets it with [setsockopt(SOL_ALG,
    ALG_SET_KEY)] right after the bind, before the constructor returns the
    object on which alone a session can be opened; a session accepted on that
    socket carries the key.  Every registered algorithm has a positive digest
    size. *)
Theorem crc32c_key_setup K w :
  let key := bytes_repeat xff (ALG_BYTE HashCRC32C) in
  let fd := fresh_fd (w_fds w) in
  Hash_algorithm !! "crc32c"%string = Some HashCRC32C ∧
  key = [xff; xff; xff; xff] ∧
  len key = ALG_BYTE HashCRC32C ∧
  ALG_BYTE HashCRC32C = 4 ∧
  (∀ name c, Hash_algorithm !! name = Some c → 0 < ALG_BYTE c) ∧
  (k_socket K AF_ALG = None →
   k_bind K ALG_TYPE (ALG_NAME HashCRC32C) = None →
   ∀ o w', Hash_init K HashCRC32C w = (o, w') →
     ∃ rest,
       w_trace w' = w_trace w ++
         [EvSocket AF_ALG SOCK_SEQPACKET 0;
          EvBind fd ALG_TYPE (ALG_NAME HashCRC32C);
          EvSetsockopt fd SOL_ALG ALG_SET_KEY key 4] ++ rest ∧
       Forall (λ e, is_accept e = false) rest ∧
       ∀ h, o = Ok h →
         rest = [] ∧ h_sock h = fd ∧
         w_fds w' !! fd =
           Some (FSock (Some (ALG_TYPE, ALG_NAME HashCRC32C)) (Some key)) ∧
         ∀ s w'', libc_accept K (h_sock h) w' = (Ok s, w'') → 0 ≤ s →
           w_fds w'' !! s =
             Some (FSession (ALG_NAME HashCRC32C) (Some key) [] 0)).
Proof.
  intros key fd. split; [reflexivity |]. split; [reflexivity |].
  split; [reflexivity |]. split; [reflexivity |]. split.
  { intros name c Hc. exact (registry_digest_sizes name c Hc). }
  intros Hsock Hbind o w' H.
  rewrite (Hash_init_run K HashCRC32C w Hsock) in H. cbv zeta in H.
  rewrite Hbind in H. cbn [cls_prepare HashCRC32C] in H.
  destruct (k_setsockopt K _ _ _ _ _) as [n |]; inversion H; subst o w';
    cbn [w_trace w_fds].
  - exists [EvClose fd]. split; [done |]. split; [by repeat constructor |].
    intros h Hh. discriminate.
  - exists []. split; [done |]. split; [constructor |].
    intros h Hh. inversion Hh; subst h. cbn [h_sock].
    split; [done |]. split; [done |]. split; [apply lookup_insert_eq |].
    intros s w'' Hacc Hs.
    eapply accept_inherits_key; [| exact Hacc | exact Hs].
    cbn. apply lookup_insert_eq.
Qed.

Lemma crc32c_key_setup_witness :
  w_trace (Hash_init K_full HashCRC32C w0).2 =
    [EvSocket 38 5 0; EvBind 0 ALG_TYPE (ALG_NAME HashCRC32C);
     EvSetsockopt 0 279 1 [xff; xff; xff; xff] 4].
Proof.
  destruct (crc32c_key_setup K_full w0) as (_ & _ & _ & _ & _ & Hrun).
  destruct (Hrun eq_refl eq_refl (Hash_init K_full HashCRC32C w0).1
              (Hash_init K_full HashCRC32C w0).2) as (rest & Htr & _ & Hok).
  - by destruct (Hash_init K_full HashCRC32C w0).
  - destruct (Hok {| h_class := HashCRC32C; h_sock := 0 |}) as (-> & _).
    + vm_compute. reflexivity.
    + exact Htr.
Defined.

(** ** The session scope *)

Lemma try_finally_Ok {A} (m : M A) (fin : M unit) w a w' :
  try_finally m fin w = (Ok a, w') →
  ∃ w1, m w = (Ok a, w1) ∧ fin w1 = (Ok tt, w').
Proof.
  unfold try_finally. intros H.
  destruct (m w) as [[a1 | e |] w1]; [| | discriminate];
    destruct (fin w1) as [[[] | e' |] w2] eqn:Hfin; inversion H; subst.
  by exists w1.
Qed.

Lemma libc_accept_Ok_inv K fd w s w1 :
  libc_accept K fd w = (Ok s, w1) → 0 ≤ s →
  s = fresh_fd (w_fds w) ∧
  w_trace w1 = w_trace w ++ [EvAccept fd] ∧
  ∃ name key,
    w_fds w1 = <[s := FSession name key [] 0]> (w_fds w).
Proof.
  unfold libc_accept. run_call. intros H Hs.
  repeat case_match; inversion H; subst; try lia.
  cbn. split; [done |]. split; [done |]. eauto.
Qed.

Lemma os_close_Ok_inv fd w w1 :
  os_close fd w = (Ok tt, w1) →
  w_fds w1 = delete fd (w_fds w) ∧ w_trace w1 = w_trace w ++ [EvClose fd].
Proof.
  run_call. intros H. repeat case_match; inversion H; subst. done.
Qed.

(** C8: once the accept of [Hash.open] has yielded a valid descriptor, the
    scope closes it on every way out: when the body returns and when the body
    raises, which is also how an enclosing loop over files ends early.  The
    close is the last call of the scope, issued by the scope itself. *)
Theorem session_closed_on_exit {A} K self (body : HashDescriptor → M A)
    w s w1 o w2 :
  libc_accept K (h_sock self) w = (Ok s, w1) →
  0 ≤ s →
  body {| fileno := s; digestsize := ALG_BYTE (h_class self) |} w1 = (o, w2) →
  o ≠ OutOfFuel →
  ∃ o' w3,
    Hash_open K self body w = (o', w3) ∧
    w_trace w3 = w_trace w2 ++ [EvClose s] ∧
    w_fds w3 !! s = None ∧
    w_fds w3 = delete s (w_fds w2) ∧
    (is_Some (w_fds w2 !! s) → o' = o) ∧
    (w_fds w2 !! s = None → o' = Raise (OSError EBADF)).
Proof.
  intros Hacc Hs Hbody Ho. unfold Hash_open.
  rewrite (bind_run _ _ _ _ _ Hacc). unfold try_finally.
  destruct (Z.ltb_spec s 0); [lia |]. rewrite Hbody.
  rewrite (proj2 (Z.geb_le s 0)) by lia.
  unfold os_close. run_call.
  destruct (w_fds w2 !! s) as [x |] eqn:Hlook.
  - exists o, (set_fds (delete s) (log (EvClose s) w2)).
    destruct o; try done; cbn; rewrite lookup_delete_eq;
      repeat split; try done; by eexists.
  - exists (Raise (OSError EBADF)), (log (EvClose s) w2).
    destruct o; try done; cbn; rewrite delete_id by done;
      repeat split; try done; by intros [? ?].
Qed.

Lemma session_closed_on_exit_witness :
  (∃ w3, Hash_open K_full {| h_class := HashMD5; h_sock := 0 |}
           (λ desc, HashDescriptor_digest K_full 1 desc 2 3) w_open
           = (Ok (repeat (checksum None (list_byte_of_string "abc")) 16), w3) ∧
         w_fds w3 !! 3 = None) ∧
  (∃ w3, Hash_open K_read_error {| h_class := HashMD5; h_sock := 0 |}
           (λ desc, HashDescriptor_digest K_read_error 1 desc 2 3) w_open
           = (Raise (OSError EIO), w3) ∧
         w_fds w3 !! 3 = None).
Proof.
  split.
  - destruct (libc_accept K_full 0 w_open) as [r w1] eqn:Hacc.
    assert (r = Ok 3) as ->.
    { assert (r = (libc_accept K_full 0 w_open).1) as -> by (by rewrite Hacc).
      vm_compute. reflexivity. }
    destruct (HashDescriptor_digest K_full 1
                {| fileno := 3; digestsize := 16 |} 2 3 w1) as [o w2] eqn:Hb.
    edestruct (session_closed_on_exit K_full
                 {| h_class := HashMD5; h_sock := 0 |}
                 (λ desc, HashDescriptor_digest K_full 1 desc 2 3)
                 w_open 3 w1 o w2 Hacc)
      as (o' & w3 & Hrun & _ & Hgone & _); [lia | exact Hb | |].
    + assert (o = (HashDescriptor_digest K_full 1
                     {| fileno := 3; digestsize := 16 |} 2 3
                     (libc_accept K_full 0 w_open).2).1) as ->
        by (rewrite Hacc; cbn [snd]; by rewrite Hb).
      vm_compute. discriminate.
    + exists w3. split; [| done]. rewrite Hrun. f_equal.
      assert (o' = (Hash_open K_full {| h_class := HashMD5; h_sock := 0 |}
                      (λ desc, HashDescriptor_digest K_full 1 desc 2 3)
                      w_open).1) as -> by (by rewrite Hrun).
      vm_compute. reflexivity.
  - destruct (libc_accept K_read_error 0 w_open) as [r w1] eqn:Hacc.
    assert (r = Ok 3) as ->.
    { assert (r = (libc_accept K_read_error 0 w_open).1) as ->
        by (by rewrite Hacc).
      vm_compute. reflexivity. }
    destruct (HashDescriptor_digest K_read_error 1
                {| fileno := 3; digestsize := 16 |} 2 3 w1) as [o w2] eqn:Hb.
    edestruct (session_closed_on_exit K_read_error
                 {| h_class := HashMD5; h_sock := 0 |}
                 (λ desc, HashDescriptor_digest K_read_error 1 desc 2 3)
                 w_open 3 w1 o w2 Hacc)
      as (o' & w3 & Hrun & _ & Hgone & _); [lia | exact Hb | |].
    + assert (o = (HashDescriptor_digest K_read_error 1
                     {| fileno := 3; digestsize := 16 |} 2 3
                     (libc_accept K_read_error 0 w_open).2).1) as ->
        by (rewrite Hacc; cbn [snd]; by rewrite Hb).
      vm_compute. discriminate.
    + exists w3. split; [| done]. rewrite Hrun. f_equal.
      assert (o' = (Hash_open K_read_error
                      {| h_class := HashMD5; h_sock := 0 |}
                      (λ desc, HashDescriptor_digest K_read_error 1 desc 2 3)
                      w_open).1) as -> by (by rewrite Hrun).
      vm_compute. reflexivity.
Defined.

(** ** A whole run *)

Lemma count_events_app p tr1 tr2 :
  count_events p (tr1 ++ tr2) = (count_events p tr1 + count_events p tr2)%nat.
Proof. induction tr1 as [| e tr1 IH]; cbn; [done | rewrite IH; lia]. Qed.

Lemma count_events_reads reads :
  Forall (λ e, is_read e = true) reads → count_events is_sendfile reads = O.
Proof.
  induction 1 as [| e reads He _ IH]; cbn; [done |].
  rewrite IH. by destruct e.
Qed.

Lemma body_event_reads s reads :
  Forall (λ e, is_read e = true) reads → Forall (body_event s) reads.
Proof. intros H. eapply Forall_impl; [exact H |]. by intros []. Qed.

Section Run.

Variable K : Kernel.

Lemma py_open_Ok_inv path w fp w1 :
  py_open path w = (Ok fp, w1) →
  fp = fresh_fd (w_fds w) ∧
  w_trace w1 = w_trace w ++ [EvOpen path] ∧
  ∃ data, w_fds w1 = <[fp := FFile data 0]> (w_fds w).
Proof.
  run_call. intros H. repeat case_match; inversion H; subst.
  cbn. eauto.
Qed.

Lemma fcntl_flock_Ok_inv fd w w1 :
  fcntl_flock fd w = (Ok tt, w1) →
  w_fds w1 = w_fds w ∧ w_trace w1 = w_trace w ++ [EvFlock fd].
Proof. run_call. intros H. repeat case_match; by inversion H. Qed.

Lemma os_fstat_Ok_inv fd w n w1 :
  os_fstat_st_size fd w = (Ok n, w1) →
  w_fds w1 = w_fds w ∧ w_trace w1 = w_trace w ++ [EvFstat fd].
Proof. run_call. intros H. repeat case_match; by inversion H. Qed.

Lemma digest_Ok_trace fuel self f size w b w1 :
  HashDescriptor_digest K fuel self f size w = (Ok b, w1) →
  is_session w1 (fileno self) ∧
  ∃ reads,
    w_trace w1 = w_trace w ++
      EvSendfile (fileno self) f size :: EvLseek f 0 :: reads ∧
    Forall (λ e, is_read e = true) reads.
Proof.
  intros H.
  destruct (digest_Ok_inv K _ _ _ _ _ _ _ H)
    as (name & key & msg & i & data & pos & w2 & j &
        Hs & Hf & Hloop & Hs2 & Hs1 & Hf1 & Hj).
  split; [by eexists _, _, _, _ |].
  destruct (digest_enter K fuel self f size w _ _ _ _ _ _ Hs Hf)
    as (w2' & Heq & _ & _ & Htr2).
  rewrite Heq in H.
  apply digest_loop_reads_only in H as (reads & Htr & Hall).
  exists reads. split; [| done]. rewrite Htr, Htr2. by rewrite <- app_assoc.
Qed.

(** One file of a run: opened, locked, sized, hashed through the session
    [s], printed, closed.  The session stays open. *)
Lemma main_file_Ok fuel s d path w w' :
  is_session w s →
  main_file K fuel {| fileno := s; digestsize := d |} path w = (Ok tt, w') →
  is_session w' s ∧
  ∃ evs, w_trace w' = w_trace w ++ evs ∧
    Forall (body_event s) evs ∧
    count_events is_sendfile evs = 1%nat.
Proof.
  intros (name & key & msg & i & Hs) H. unfold main_file in H.
  apply bind_Ok in H as (fp & w1 & Hopen & H).
  apply py_open_Ok_inv in Hopen as (Hfp & Htr1 & data & Hfds1).
  assert (fp ≠ s) as Hne.
  { intros ->. pose proof (fresh_fd_free (w_fds w)) as Hfree.
    rewrite <- Hfp, Hs in Hfree. discriminate. }
  apply try_finally_Ok in H as (w5 & H & Hclose).
  apply bind_Ok in H as ([] & w2 & Hflock & H).
  apply fcntl_flock_Ok_inv in Hflock as (Hfds2 & Htr2).
  apply bind_Ok in H as (sz & w3 & Hstat & H).
  apply os_fstat_Ok_inv in Hstat as (Hfds3 & Htr3).
  apply bind_Ok in H as (b & w4 & Hdig & Hprint).
  apply digest_Ok_trace in Hdig as ((n4 & k4 & m4 & i4 & Hs4) & reads & Htr4 & Hreads).
  cbn [fileno] in *.
  unfold print, emit in Hprint. inversion Hprint; subst w5. clear Hprint.
  apply os_close_Ok_inv in Hclose as (Hfds' & Htr').
  split.
  - exists n4, k4, m4, i4. rewrite Hfds'. cbn.
    by rewrite lookup_delete_ne.
  - exists ([EvOpen path; EvFlock fp; EvFstat fp; EvSendfile s fp sz;
             EvLseek fp 0] ++ reads ++
            [EvPrint (hexlify b +:+ " " +:+ "" +:+ " " +:+ path); EvClose fp]).
    split; [| split].
    + rewrite Htr'. cbn [w_trace log]. rewrite Htr4, Htr3, Htr2, Htr1.
      rewrite <- !app_assoc. reflexivity.
    + apply Forall_app. split; [by repeat constructor |].
      apply Forall_app. split; [by apply body_event_reads |].
      by repeat constructor.
    + rewrite !count_events_app, (count_events_reads reads) by done.
      reflexivity.
Qed.

Lemma main_files_Ok fuel s d files :
  ∀ w w',
    is_session w s →
    main_files K fuel {| fileno := s; digestsize := d |} files w = (Ok tt, w') →
    is_session w' s ∧
    ∃ evs, w_trace w' = w_trace w ++ evs ∧
      Forall (body_event s) evs ∧
      count_events is_sendfile evs = length files.
Proof.
  induction files as [| path files IH]; intros w w' Hs H; cbn [main_files] in H.
  - inversion H; subst. split; [done |]. exists [].
    by rewrite app_nil_r.
  - apply bind_Ok in H as ([] & w1 & Hone & Hrest).
    apply main_file_Ok in Hone as (Hs1 & evs1 & Htr1 & Hall1 & Hn1); [| done].
    apply IH in Hrest as (Hs' & evs & Htr & Hall & Hn); [| done].
    split; [done |]. exists (evs1 ++ evs). split; [| split].
    + rewrite Htr, Htr1. by rewrite <- app_assoc.
    + by apply Forall_app.
    + rewrite count_events_app, Hn1, Hn. reflexivity.
Qed.

Lemma Hash_open_Ok_inv {A} self (body : HashDescriptor → M A) w a w' :
  Hash_open K self body w = (Ok a, w') →
  ∃ s wa wb,
    libc_accept K (h_sock self) w = (Ok s, wa) ∧ 0 ≤ s ∧
    body {| fileno := s; digestsize := ALG_BYTE (h_class self) |} wa
      = (Ok a, wb) ∧
    os_close s wb = (Ok tt, w').
Proof.
  intros H. unfold Hash_open in H.
  apply bind_Ok in H as (s & wa & Hacc & H).
  apply try_finally_Ok in H as (wb & Hbody & Hfin).
  destruct (Z.ltb_spec s 0).
  - run_call. discriminate.
  - rewrite (proj2 (Z.geb_le s 0)) in Hfin by lia.
    by exists s, wa, wb.
Qed.

(** A construction that succeeds: one socket call, then the bind and, for a
    keyed class, the key; the object holds the descriptor of a bound socket. *)
Lemma Hash_init_Ok_inv cls w h w1 :
  Hash_init K cls w = (Ok h, w1) →
  ∃ setup ty name key,
    w_trace w1 = w_trace w ++ EvSocket AF_ALG SOCK_SEQPACKET 0 :: setup ∧
    Forall (λ e, is_socket e = false ∧ is_accept e = false) setup ∧
    w_fds w1 !! h_sock h = Some (FSock (Some (ty, name)) key).
Proof.
  intros H. destruct (k_socket K AF_ALG) as [n |] eqn:Hsock.
  { unfold Hash_init in H. run_call. rewrite Hsock in H. discriminate. }
  rewrite (Hash_init_run K cls w Hsock) in H. cbv zeta in H.
  destruct (k_bind K _ _); [discriminate |].
  destruct (cls_prepare cls).
  - inversion H; subst. eexists [_], _, _, _. cbn.
    split; [done |]. split; [by repeat constructor |].
    apply lookup_insert_eq.
  - destruct (k_setsockopt K _ _ _ _ _); [discriminate |].
    inversion H; subst. eexists [_; _], _, _, _. cbn.
    split; [done |]. split; [by repeat constructor |].
    apply lookup_insert_eq.
Qed.

End Run.

(** C1, as stated, fails: a run over two files accepts one session, not one
    per file.  Both transfers go into descriptor 1, which is closed only after
    the second file. *)
Lemma main_two_files_one_accept :
  let files := ["a"%string; "b"%string] in
  let run := main K_full 1 "md5" files w0 in
  run.1 = Ok tt ∧
  w_trace run.2 =
    [EvSocket 38 5 0; EvBind 0 ALG_TYPE (ALG_NAME HashMD5); EvAccept 0;
     EvOpen "a"; EvFlock 2; EvFstat 2; EvSendfile 1 2 3; EvLseek 2 0;
     EvRead 1 16; EvPrint "26262626262626262626262626262626  a"; EvClose 2;
     EvOpen "b"; EvFlock 2; EvFstat 2; EvSendfile 1 2 5; EvLseek 2 0;
     EvRead 1 16; EvPrint "14141414141414141414141414141414  b"; EvClose 2;
     EvClose 1; EvClose 0] ∧
  count_events is_accept (w_trace run.2) ≠ length files.
Proof. repeat split; vm_compute; (reflexivity || discriminate). Qed.

(** C1 (amended): a run that hashes its files under one algorithm creates
    one transform socket and accepts one session on it, before the first
    file.  Every file's transfer goes into that one session; the session is
    closed once, after the last file, and the socket after it. *)
Theorem main_single_session K fuel algorithm files w w' :
  main K fuel algorithm files w = (Ok tt, w') →
  ∃ sock s setup body,
    w_trace w' = w_trace w ++
      EvSocket AF_ALG SOCK_SEQPACKET 0 :: setup ++
      [EvAccept sock] ++ body ++ [EvClose s; EvClose sock] ∧
    Forall (λ e, is_socket e = false ∧ is_accept e = false) setup ∧
    Forall (body_event s) body ∧
    count_events is_sendfile body = length files.
Proof.
  intros H. unfold main in H. case_bool_decide; [| discriminate].
  apply bind_Ok in H as (h & w1 & Hinst & H).
  unfold Hash_instance in Hinst.
  destruct (Hash_algorithm !! algorithm) as [c |]; [| discriminate].
  apply Hash_init_Ok_inv in Hinst as (setup & ty & name & key & Htr1 & Hsetup & Hsock).
  apply bind_Ok in H as ([] & w2 & Hopen & Hdel).
  apply Hash_open_Ok_inv in Hopen as (s & wa & wb & Hacc & Hs & Hbody & Hclose).
  apply libc_accept_Ok_inv in Hacc as (_ & Htra & sname & skey & Hfdsa); [| done].
  apply main_files_Ok in Hbody as (_ & body & Htrb & Hall & Hn).
  2: { exists sname, skey, [], 0%nat. rewrite Hfdsa. apply lookup_insert_eq. }
  apply os_close_Ok_inv in Hclose as (_ & Htr2).
  unfold Hash_del, socket_close in Hdel. run_call.
  inversion Hdel; subst w'. clear Hdel.
  exists (h_sock h), s, setup, body. split; [| done].
  unfold set_fds, log. cbn [w_trace]. rewrite Htr2, Htrb, Htra, Htr1.
  rewrite <- !app_assoc. reflexivity.
Qed.

Lemma main_single_session_witness :
  ∃ sock s setup body,
    w_trace (main K_short 16 "crc32c" ["a"%string; "b"%string] w0).2 =
      EvSocket AF_ALG SOCK_SEQPACKET 0 :: setup ++
      [EvAccept sock] ++ body ++ [EvClose s; EvClose sock] ∧
    Forall (body_event s) body ∧
    count_events is_sendfile body = 2%nat.
Proof.
  destruct (main K_short 16 "crc32c" ["a"%string; "b"%string] w0)
    as [o w'] eqn:Hrun.
  assert (o = Ok tt) as ->.
  { assert (o = (main K_short 16 "crc32c" ["a"%string; "b"%string] w0).1)
      as -> by (by rewrite Hrun).
    vm_compute. reflexivity. }
  destruct (main_single_session K_short 16 "crc32c" ["a"%string; "b"%string]
              w0 w' Hrun) as (sock & s & setup & body & Htr & _ & Hall & Hn).
  exists sock, s, setup, body.
  split; [exact Htr | split; [exact Hall | exact Hn]].
Defined.

(** * Further properties of the program *)

(** ** The registry built by [algorithm] *)

Lemma pyclass_nested_ind (P : pyclass → Prop) :
  (∀ name nbytes prep subs,
     Forall P subs → P (PyClass name nbytes prep subs)) →
  ∀ c, P c.
Proof.
  intros Hstep. fix IH 1. intros [name nbytes prep subs]. apply Hstep.
  induction subs as [| c subs IHsubs]; constructor; [apply IH | exact IHsubs].
Qed.

Lemma cls_algorithm_unfold c :
  cls_algorithm c = fold_left register (subclasses c) ∅.
Proof. by destruct c. Qed.

(** What is in the dictionary after the loop came from the dictionary before
    it or from one of the classes looped over. *)
Lemma fold_register_sound (G : string → pyclass → Prop) :
  ∀ cs d,
    Forall (λ c', G (decode (ALG_NAME c')) c' ∧
                  ∀ name x, cls_algorithm c' !! name = Some x → G name x) cs →
    (∀ name x, d !! name = Some x → G name x) →
    ∀ name x, fold_left register cs d !! name = Some x → G name x.
Proof.
  induction cs as [| c' cs IH]; intros d Hcs Hd name x; cbn [fold_left];
    [apply Hd |].
  inversion Hcs as [| ? ? [Hself Hsub] Hrest]; subst.
  apply IH; [done |]. clear name x. intros name x. unfold register.
  rewrite lookup_insert. case_decide as Hname.
  - intros [= <-]. by subst name.
  - rewrite lookup_union_Some_raw. intros [Hx | [_ Hx]]; eauto.
Qed.

Lemma cls_algorithm_sound :
  ∀ c name x,
    cls_algorithm c !! name = Some x →
    decode (ALG_NAME x) = name ∧ descendant x c.
Proof.
  induction c as [cname nbytes prep subs IH] using pyclass_nested_ind.
  intros name x. rewrite cls_algorithm_unfold. cbn [subclasses].
  set (c := PyClass cname nbytes prep subs).
  apply (fold_register_sound
           (λ name x, decode (ALG_NAME x) = name ∧ descendant x c)).
  - apply Forall_forall. intros c' Hin. split.
    + split; [done |]. by apply descendant_child.
    + intros name' x' Hx'.
      rewrite Forall_forall in IH. destruct (IH c' Hin name' x' Hx').
      split; [done |]. by eapply descendant_deeper.
  - intros name' x'. by rewrite lookup_empty.
Qed.

(** X1: in the dictionary that [algorithm] builds, every entry sits under
    the decoded [ALG_NAME] of its own class, and only classes below the one
    asked are entered; for [Hash.algorithm()] these are the subclasses of
    [Hash] and the classes derived from them. *)
Theorem algorithm_entries_sound :
  (∀ c name x,
     cls_algorithm c !! name = Some x →
     decode (ALG_NAME x) = name ∧ descendant x c) ∧
  (∀ name x,
     Hash_algorithm !! name = Some x →
     decode (ALG_NAME x) = name ∧ derives_from Hash_subclasses x).
Proof.
  split; [exact cls_algorithm_sound |].
  apply (fold_register_sound
           (λ name x, decode (ALG_NAME x) = name ∧
                      derives_from Hash_subclasses x)).
  - apply Forall_forall. intros c' Hin. split.
    + split; [done |]. exists c'. by split; [| left].
    + intros name x Hx. destruct (cls_algorithm_sound c' name x Hx).
      split; [done |]. exists c'. by split; [| right].
  - intros name x. by rewrite lookup_empty.
Qed.

(** A name entered stays entered through the rest of the loop. *)
Lemma fold_register_keeps cs :
  ∀ d k, is_Some (d !! k) → is_Some (fold_left register cs d !! k).
Proof.
  induction cs as [| c' cs IH]; intros d k Hk; cbn [fold_left]; [done |].
  apply IH. unfold register. rewrite lookup_insert. case_decide; [done |].
  destruct Hk as [x Hx].
  destruct (cls_algorithm c' !! k) as [y |] eqn:Hy.
  - exists y. by apply lookup_union_Some_l.
  - exists x. rewrite lookup_union_r; done.
Qed.

Lemma fold_register_complete cs :
  ∀ d c' k,
    c' ∈ cs →
    k = decode (ALG_NAME c') ∨ is_Some (cls_algorithm c' !! k) →
    is_Some (fold_left register cs d !! k).
Proof.
  induction cs as [| c cs IH]; intros d c' k Hin Hk; [by inversion Hin |].
  cbn [fold_left]. apply elem_of_cons in Hin as [-> | Hin]; [| by eapply IH].
  apply fold_register_keeps. unfold register. rewrite lookup_insert.
  case_decide as Hname; [done |].
  destruct Hk as [-> | [x Hx]]; [done |].
  exists x. by apply lookup_union_Some_l.
Qed.

Lemma cls_algorithm_complete c x :
  descendant x c → is_Some (cls_algorithm c !! decode (ALG_NAME x)).
Proof.
  induction 1 as [c x Hin | c c' x Hin _ IH]; rewrite cls_algorithm_unfold;
    eapply fold_register_complete; eauto.
Qed.

(** X2: [algorithm] leaves no class out: the name of every class below the
    one asked is a key of the dictionary, at any depth of the hierarchy; for
    [Hash.algorithm()] that is every subclass of [Hash] and every class
    derived from one. *)
Theorem algorithm_names_complete :
  (∀ c x, descendant x c →
     is_Some (cls_algorithm c !! decode (ALG_NAME x))) ∧
  (∀ x, derives_from Hash_subclasses x →
     is_Some (Hash_algorithm !! decode (ALG_NAME x))).
Proof.
  split; [exact cls_algorithm_complete |].
  intros x (c' & Hin & Hx). unfold Hash_algorithm.
  change (is_Some (fold_left register Hash_subclasses ∅
                     !! decode (ALG_NAME x))).
  eapply fold_register_complete; [exact Hin |].
  destruct Hx as [-> | Hdesc]; [by left | right].
  by apply cls_algorithm_complete.
Qed.

Lemma algorithm_names_complete_witness :
  is_Some (Hash_algorithm !! "sha224"%string).
Proof.
  destruct algorithm_names_complete as [_ Hreg].
  apply (Hreg HashSHA224). exists HashSHA224.
  split; [| by left]. unfold Hash_subclasses. set_solver.
Defined.

(** ** The hexadecimal form of a digest *)

Lemma hex_byte_roundtrip (x : byte) :
  unhex_digit (hex_digit (Byte.to_N x / 16)) = Some (Byte.to_N x / 16)%N ∧
  unhex_digit (hex_digit (Byte.to_N x mod 16)) = Some (Byte.to_N x mod 16)%N ∧
  Byte.of_N (16 * (Byte.to_N x / 16) + Byte.to_N x mod 16) = Some x.
Proof. destruct x; vm_compute; done. Qed.

Lemma unhexlify_hexlify (b : bytes) : unhexlify (hexlify b) = Some b.
Proof.
  induction b as [| x b IH]; [done |].
  cbn [hexlify unhexlify].
  destruct (hex_byte_roundtrip x) as (-> & -> & Hx).
  by rewrite IH, Hx.
Qed.

(** X3: the hexadecimal text printed for a digest has two digits for every
    byte and can be read back: [unhexlify] recovers the bytes, so different
    digests never print the same text. *)
Theorem hexlify_roundtrip :
  (∀ b, String.length (hexlify b) = (2 * length b)%nat) ∧
  (∀ b, unhexlify (hexlify b) = Some b) ∧
  (∀ b1 b2, hexlify b1 = hexlify b2 → b1 = b2).
Proof.
  split; [| split].
  - induction b as [| x b IH]; [done |]. cbn [hexlify String.length length].
    rewrite IH. lia.
  - exact unhexlify_hexlify.
  - intros b1 b2 Heq.
    assert (Some b1 = Some b2) as [= ->]; [| done].
    by rewrite <- !unhexlify_hexlify, Heq.
Qed.

(** ** What one call of [digest] touches *)

Lemma bind_inv {A B} (m : M A) (f : A → M B) w o w' :
  bind m f w = (o, w') →
  (∃ a w1, m w = (Ok a, w1) ∧ f a w1 = (o, w')) ∨
  (∃ e, o = Raise e ∧ m w = (Raise e, w')) ∨
  (o = OutOfFuel ∧ m w = (OutOfFuel, w')).
Proof.
  unfold bind. destruct (m w) as [[a | e |] w1]; intros H.
  - left. eauto.
  - inversion H; subst. right. left. eauto.
  - inversion H; subst. right. right. eauto.
Qed.

Lemma fdobj_like_refl a : fdobj_like a a.
Proof. by destruct a as [[] |]. Qed.

Lemma fdobj_like_trans a b c : fdobj_like a b → fdobj_like b c → fdobj_like a c.
Proof.
  destruct a as [[] |], b as [[] |], c as [[] |]; cbn; try done;
    intuition congruence.
Qed.

Lemma touches_only_log s f e w : touches_only s f w (log e w).
Proof. repeat split; try done. intros k. apply fdobj_like_refl. Qed.

Lemma touches_only_trans s f w1 w2 w3 :
  touches_only s f w1 w2 → touches_only s f w2 w3 → touches_only s f w1 w3.
Proof.
  intros (Hfs & Herr & Hout & Hlike) (Hfs' & Herr' & Hout' & Hlike').
  split; [congruence |]. split; [congruence |]. split.
  - intros k Hs Hf. rewrite Hout' by done. by apply Hout.
  - intros k. eapply fdobj_like_trans; eauto.
Qed.

(** Replacing the object under one of the two descriptors by a like one. *)
Lemma touches_only_put s f k x w :
  k = s ∨ k = f →
  fdobj_like (w_fds w !! k) (Some x) →
  touches_only s f w (set_fds (insert k x) w).
Proof.
  intros Hk Hlike. split; [done |]. split; [done |]. split; cbn.
  - intros k' Hs Hf. apply lookup_insert_ne. intros ->. by destruct Hk.
  - intros k'. destruct (decide (k = k')) as [<- | Hne].
    + by rewrite lookup_insert_eq.
    + rewrite lookup_insert_ne by done. apply fdobj_like_refl.
Qed.

Section Touches.

Variable K : Kernel.

Lemma os_read_touches s f n w o w' :
  os_read K s n w = (o, w') → touches_only s f w w'.
Proof.
  intros H. run_call.
  destruct (w_fds w !! s) as [[a k1 | name key msg i | data pos] |] eqn:Hs;
    try (inversion H; subst; apply touches_only_log).
  - destruct (k_read K name key msg i n); inversion H; subst;
      [| apply touches_only_log].
    eapply touches_only_trans; [apply (touches_only_log s f (EvRead s n)) |].
    apply touches_only_put; [by left |]. cbn. by rewrite Hs.
  - inversion H; subst.
    eapply touches_only_trans; [apply (touches_only_log s f (EvRead s n)) |].
    apply touches_only_put; [by left |]. cbn. by rewrite Hs.
Qed.

Lemma os_sendfile_touches s f count w o w' :
  os_sendfile s f count w = (o, w') → touches_only s f w w'.
Proof.
  intros H. run_call.
  destruct (w_fds w !! f) as [[a1 k1 | n1 k1 m1 i1 | data pos] |] eqn:Hf;
    destruct (w_fds w !! s) as [[a2 k2 | name key msg i | d2 p2] |] eqn:Hs;
    inversion H; subst; try apply touches_only_log.
  assert (s ≠ f) as Hne by (intros ->; congruence).
  eapply touches_only_trans;
    [apply (touches_only_log s f (EvSendfile s f count)) |].
  eapply touches_only_trans.
  - apply (touches_only_put s f f (FFile data (pos + len (file_chunk data pos count))));
      [by right |]. cbn. by rewrite Hf.
  - apply touches_only_put; [by left |]. cbn.
    rewrite lookup_insert_ne by done. by rewrite Hs.
Qed.

Lemma os_lseek_touches s f pos w o w' :
  os_lseek f pos w = (o, w') → touches_only s f w w'.
Proof.
  intros H. run_call.
  destruct (w_fds w !! f) as [[a1 k1 | n1 k1 m1 i1 | data p] |] eqn:Hf;
    try (inversion H; subst; apply touches_only_log).
  destruct (pos <? 0); inversion H; subst; [apply touches_only_log |].
  eapply touches_only_trans; [apply (touches_only_log s f (EvLseek f pos)) |].
  apply touches_only_put; [by right |]. cbn. by rewrite Hf.
Qed.

Lemma digest_loop_touches self f :
  ∀ fuel size buff w o w',
    digest_loop K fuel self size buff w = (o, w') →
    touches_only (fileno self) f w w' ∧
    ∃ reads, w_trace w' = w_trace w ++ reads.
Proof.
  induction fuel as [| fuel IH]; intros size buff w o w' H;
    cbn [digest_loop] in H; destruct (size <? digestsize self);
    try (unfold out_of_fuel, ret in H; inversion H; subst; split;
         [repeat split; try done; intros; apply fdobj_like_refl
         | exists []; by rewrite app_nil_r]).
  apply bind_inv in H as [(c & w1 & Hread & Hrest) | [(e & -> & Hread) | [-> Hread]]].
  - apply IH in Hrest as (Ht & reads & Htr).
    split; [eapply touches_only_trans; [by eapply os_read_touches | done] |].
    apply os_read_trace in Hread. rewrite Htr, Hread.
    eexists. by rewrite <- app_assoc.
  - split; [by eapply os_read_touches |].
    apply os_read_trace in Hread. eauto.
  - split; [by eapply os_read_touches |].
    apply os_read_trace in Hread. eauto.
Qed.

Lemma digest_touches fuel self f size w o w' :
  HashDescriptor_digest K fuel self f size w = (o, w') →
  touches_only (fileno self) f w w'.
Proof.
  intros H. unfold HashDescriptor_digest in H.
  apply bind_inv in H as [(r & w1 & Hsend & H) | [(e & -> & Hsend) | [-> Hsend]]];
    try by eapply os_sendfile_touches.
  eapply touches_only_trans; [by eapply os_sendfile_touches |].
  apply bind_inv in H as [(r' & w2 & Hseek & H) | [(e & -> & Hseek) | [-> Hseek]]];
    try by eapply os_lseek_touches.
  eapply touches_only_trans; [by eapply os_lseek_touches |].
  by eapply digest_loop_touches.
Qed.

End Touches.

(** X4: whatever way a call of [digest] ends, it has worked on its session
    and on the input descriptor only.  Every other descriptor is as it was, no
    descriptor was opened, closed or put to another use, the session is still
    a session of the same transform and key, the file still holds the same
    bytes, and the file system and errno are unchanged. *)
Theorem digest_frame K fuel self f size w o w' :
  HashDescriptor_digest K fuel self f size w = (o, w') →
  w_fs w' = w_fs w ∧
  w_errno w' = w_errno w ∧
  (∀ k, k ≠ fileno self → k ≠ f → w_fds w' !! k = w_fds w !! k) ∧
  (∀ k, is_Some (w_fds w' !! k) ↔ is_Some (w_fds w !! k)) ∧
  (∀ name key msg i,
     w_fds w !! fileno self = Some (FSession name key msg i) →
     ∃ msg' j, w_fds w' !! fileno self = Some (FSession name key msg' j)) ∧
  (∀ data pos,
     w_fds w !! f = Some (FFile data pos) →
     ∃ pos', w_fds w' !! f = Some (FFile data pos')).
Proof.
  intros H. apply digest_touches in H as (Hfs & Herr & Hout & Hlike).
  split; [done |]. split; [done |]. split; [done |]. split; [| split].
  - intros k. specialize (Hlike k).
    destruct (w_fds w !! k) as [[] |], (w_fds w' !! k) as [[] |];
      cbn in Hlike; try done; split; intros _; by eexists.
  - intros name key msg i Hs. specialize (Hlike (fileno self)).
    rewrite Hs in Hlike.
    destruct (w_fds w' !! fileno self) as [[] |]; try done.
    destruct Hlike as [<- <-]. eauto.
  - intros data pos Hf. specialize (Hlike f). rewrite Hf in Hlike.
    destruct (w_fds w' !! f) as [[] |]; try done. cbn in Hlike. subst. eauto.
Qed.

Lemma digest_frame_witness :
  w_fds (HashDescriptor_digest K_read_error 1 desc_md5 2 3 w_open).2 !! 0
    = w_fds w_open !! 0.
Proof.
  destruct (HashDescriptor_digest K_read_error 1 desc_md5 2 3 w_open)
    as [o w'] eqn:Hrun.
  destruct (digest_frame _ _ _ _ _ _ _ _ Hrun) as (_ & _ & Hout & _).
  apply Hout; cbn; lia.
Defined.

(** ** [digest] when things go wrong, and what it computes *)



(** X6: [digest] on a session descriptor or an input descriptor that is not
    open fails with EBADF at the transfer: the transfer is the only call
    issued, nothing is rewound or read, and no descriptor changes. *)
Theorem digest_closed_descriptor K fuel self f size w :
  w_fds w !! fileno self = None ∨ w_fds w !! f = None →
  HashDescriptor_digest K fuel self f size w =
    (Raise (OSError EBADF), log (EvSendfile (fileno self) f size) w).
Proof.
  intros Hclosed. unfold HashDescriptor_digest. run_call.
  destruct (w_fds w !! f) as [[a1 k1 | n1 k1 m1 i1 | data pos] |];
    destruct (w_fds w !! fileno self) as [[a2 k2 | name key msg i | d2 p2] |];
    try reflexivity; by destruct Hclosed.
Qed.

Lemma digest_closed_descriptor_witness :
  HashDescriptor_digest K_full 1 {| fileno := 7; digestsize := 16 |} 2 3 w_open
    = (Raise (OSError EBADF), log (EvSendfile 7 2 3) w_open).
Proof.
  apply (digest_closed_descriptor K_full 1
           {| fileno := 7; digestsize := 16 |} 2 3 w_open).
  left. reflexivity.
Defined.

Section KernelDigest.

Variable K : Kernel.




End KernelDigest.



(** ** Opening a session and constructing the socket: the other outcomes *)

Lemma libc_accept_negative K fd w s w1 :
  libc_accept K fd w = (Ok s, w1) → s < 0 →
  w_fds w1 = w_fds w ∧ w_fs w1 = w_fs w ∧
  w_trace w1 = w_trace w ++ [EvAccept fd].
Proof.
  unfold libc_accept. run_call. intros H Hs.
  pose proof (fresh_fd_nonneg (w_fds w)).
  repeat case_match; inversion H; subst; cbn; (done || lia).
Qed.

(** X8: when the accept of [Hash.open] is refused, the scope is never
    entered: the body does not run, [OSError] carries the errno the call left
    behind, nothing is closed (there is nothing to close) and the descriptor
    table is as before.  A bound socket whose accept the kernel refuses with
    [n] gives [OSError n]. *)
Theorem open_accept_refused {A} K self (body : HashDescriptor → M A) w s w1 :
  libc_accept K (h_sock self) w = (Ok s, w1) →
  s < 0 →
  Hash_open K self body w = (Raise (OSError (w_errno w1)), w1) ∧
  w_trace w1 = w_trace w ++ [EvAccept (h_sock self)] ∧
  w_fds w1 = w_fds w ∧
  (∀ ty name key n,
     w_fds w !! h_sock self = Some (FSock (Some (ty, name)) key) →
     k_accept K (length (w_trace w)) = Some n →
     w_errno w1 = n).
Proof.
  intros Hacc Hs.
  destruct (libc_accept_negative K _ _ _ _ Hacc Hs) as (Hfds & _ & Htr).
  split; [| split; [done | split; [done |]]].
  - unfold Hash_open. rewrite (bind_run _ _ _ _ _ Hacc). unfold try_finally.
    destruct (Z.ltb_spec s 0); [| lia].
    destruct (Z.geb_spec s 0); [lia |]. reflexivity.
  - intros ty name key n Hsock Hk. unfold libc_accept in Hacc. run_call.
    rewrite Hsock, Hk in Hacc. by inversion Hacc.
Qed.

Lemma open_accept_refused_witness :
  ∃ w1, Hash_open K_no_accept {| h_class := HashMD5; h_sock := 0 |}
          (λ desc, HashDescriptor_digest K_no_accept 1 desc 2 3) w_open
          = (Raise (OSError EMFILE), w1) ∧
        w_fds w1 = w_fds w_open.
Proof.
  destruct (libc_accept K_no_accept 0 w_open) as [r w1] eqn:Hacc.
  assert (r = Ok (-1)) as ->.
  { assert (r = (libc_accept K_no_accept 0 w_open).1) as ->
      by (by rewrite Hacc).
    vm_compute. reflexivity. }
  destruct (open_accept_refused K_no_accept
              {| h_class := HashMD5; h_sock := 0 |}
              (λ desc, HashDescriptor_digest K_no_accept 1 desc 2 3)
              w_open (-1) w1 Hacc) as (Hrun & _ & Hfds & Herr); [lia |].
  exists w1. split; [| done]. rewrite Hrun.
  by rewrite (Herr ALG_TYPE (ALG_NAME HashMD5) None EMFILE eq_refl eq_refl).
Defined.

(** X9: a construction that succeeds has added exactly one descriptor, the
    lowest free one, as a socket bound to type "hash" and the class's name,
    and the object holds it.  A class that keeps [Hash.prepare] has issued
    the socket and bind calls and never a [setsockopt]; a class with the
    CRC32C [prepare] has issued the key as third and last call. *)
Theorem construction_success K cls w h w' :
  Hash_init K cls w = (Ok h, w') →
  let fd := fresh_fd (w_fds w) in
  let calls := [EvSocket AF_ALG SOCK_SEQPACKET 0;
                EvBind fd ALG_TYPE (ALG_NAME cls)] in
  h = {| h_class := cls; h_sock := fd |} ∧
  w_fds w !! fd = None ∧
  w_fds w' = <[fd := FSock (Some (ALG_TYPE, ALG_NAME cls)) (class_key cls)]>
               (w_fds w) ∧
  w_fs w' = w_fs w ∧
  w_trace w' = w_trace w ++ calls ++
    match cls_prepare cls with
    | Prepare_Hash => []
    | Prepare_HashCRC32C =>
        [EvSetsockopt fd SOL_ALG ALG_SET_KEY
           (bytes_repeat xff (ALG_BYTE cls)) (ALG_BYTE cls)]
    end.
Proof.
  intros H fd calls.
  destruct (k_socket K AF_ALG) as [n |] eqn:Hsock.
  { unfold Hash_init in H. run_call. rewrite Hsock in H. discriminate. }
  rewrite (Hash_init_run K cls w Hsock) in H. cbv zeta in H.
  fold fd in H. unfold class_key.
  destruct (k_bind K _ _); [discriminate |].
  destruct (cls_prepare cls).
  - inversion H; subst. cbn. try rewrite app_nil_r.
    repeat split; try done. apply fresh_fd_free.
  - destruct (k_setsockopt K _ _ _ _ _); [discriminate |].
    inversion H; subst. cbn.
    repeat split; try done. apply fresh_fd_free.
Qed.

Lemma construction_success_witness :
  ∃ w', Hash_init K_full HashSHA256 w_open
          = (Ok {| h_class := HashSHA256; h_sock := 3 |}, w') ∧
        w_trace w' =
          [EvSocket 38 5 0; EvBind 3 ALG_TYPE (ALG_NAME HashSHA256)].
Proof.
  destruct (Hash_init K_full HashSHA256 w_open) as [o w'] eqn:Hrun.
  assert (∃ h, o = Ok h) as [h ->].
  { assert (o = (Hash_init K_full HashSHA256 w_open).1) as ->
      by (by rewrite Hrun).
    eexists. vm_compute. reflexivity. }
  destruct (construction_success K_full HashSHA256 w_open h w' Hrun)
    as (-> & _ & _ & _ & Htr).
  exists w'. split; [reflexivity | exact Htr].
Defined.

(** ** Descriptors over a whole run *)

Lemma keeps_bind {A B} (R : World → World → Prop) (m : M A) (f : A → M B) :
  (∀ w1 w2 w3, R w1 w2 → R w2 w3 → R w1 w3) →
  keeps R m → (∀ a, keeps R (f a)) → keeps R (bind m f).
Proof.
  intros Htrans Hm Hf w o w' H.
  apply bind_inv in H as [(a & w1 & Hrun & Hrest) | [(e & -> & Hrun) | [-> Hrun]]];
    [| by eapply Hm | by eapply Hm].
  eapply Htrans; [by eapply Hm | by eapply Hf].
Qed.

Lemma try_finally_inv {A} (m : M A) (fin : M unit) w o w' :
  try_finally m fin w = (o, w') → o ≠ OutOfFuel →
  ∃ o1 w1 r,
    m w = (o1, w1) ∧ fin w1 = (r, w') ∧ o1 ≠ OutOfFuel ∧
    (o = o1 ∨ ∃ e, o = Raise e ∧ r = Raise e).
Proof.
  unfold try_finally. intros H Ho.
  destruct (m w) as [o1 w1] eqn:Hm.
  destruct o1 as [a | e |]; [| | congruence];
    destruct (fin w1) as [[[] | e' |] w2] eqn:Hfin;
    injection H as <- <-; try congruence.
  - exists (Ok a), w1, (Ok tt). auto.
  - exists (Ok a), w1, (Raise e'). repeat split; eauto.
  - exists (Raise e), w1, (Ok tt). auto.
  - exists (Raise e), w1, (Raise e'). repeat split; eauto.
Qed.

Lemma os_close_inv fd w r w' :
  os_close fd w = (r, w') →
  w_fds w' = delete fd (w_fds w) ∧ w_fs w' = w_fs w ∧
  w_trace w' = w_trace w ++ [EvClose fd] ∧
  (is_Some (w_fds w !! fd) → r = Ok tt).
Proof.
  run_call. intros H.
  destruct (w_fds w !! fd) as [x |] eqn:Hfd; inversion H; subst; cbn.
  - done.
  - rewrite delete_id by done. repeat split; try done; by intros [? ?].
Qed.

Lemma py_open_inv path w o w' :
  py_open path w = (o, w') →
  (∃ data, w_fs w !! path = Some data ∧ o = Ok (fresh_fd (w_fds w)) ∧
     w' = set_fds (insert (fresh_fd (w_fds w)) (FFile data 0))
            (log (EvOpen path) w)) ∨
  (w_fs w !! path = None ∧ o = Raise (OSError ENOENT) ∧
     w' = log (EvOpen path) w).
Proof.
  run_call. intros H.
  destruct (w_fs w !! path) as [data |] eqn:Hfs; inversion H; subst.
  - left. by exists data.
  - by right.
Qed.

Section Frames.

Variable K : Kernel.

Lemma flock_keeps s f : keeps (touches_only s f) (fcntl_flock f).
Proof.
  intros w o w' H. run_call.
  repeat case_match; inversion H; subst; apply touches_only_log.
Qed.

Lemma fstat_keeps s f : keeps (touches_only s f) (os_fstat_st_size f).
Proof.
  intros w o w' H. run_call.
  repeat case_match; inversion H; subst; apply touches_only_log.
Qed.

Lemma print_keeps s f line : keeps (touches_only s f) (print line).
Proof.
  intros w o w' H. run_call. inversion H; subst. apply touches_only_log.
Qed.

Lemma digest_keeps fuel self f size :
  keeps (touches_only (fileno self) f)
    (HashDescriptor_digest K fuel self f size).
Proof. intros w o w' H. by eapply digest_touches. Qed.

(** One file of a run, however it ends short of running on: the file's
    descriptor is gone again and the session is the only thing changed. *)
Lemma main_file_frame fuel s d path w name key msg i o w' :
  w_fds w !! s = Some (FSession name key msg i) →
  main_file K fuel {| fileno := s; digestsize := d |} path w = (o, w') →
  o ≠ OutOfFuel →
  session_frame s name key w w'.
Proof.
  intros Hs H Ho. unfold main_file in H.
  apply bind_inv in H as [(fp & w1 & Hopen & H) | [(e & -> & Hopen) | [-> _]]];
    [| | done].
  2: { apply py_open_inv in Hopen as [(data & _ & ? & _) | (_ & _ & ->)];
         [done |].
       split; [done |]. split; [done |]. cbn. eauto. }
  apply py_open_inv in Hopen as [(data & _ & [= ->] & ->) | (_ & ? & _)];
    [| done].
  set (fp := fresh_fd (w_fds w)) in *.
  pose proof (fresh_fd_free (w_fds w)) as Hfree. fold fp in Hfree.
  assert (fp ≠ s) as Hne by (intros Heq; rewrite Heq, Hs in Hfree; done).
  apply try_finally_inv in H as (o1 & w5 & r & Hinner & Hclose & Ho1 & _);
    [| done].
  assert (keeps (touches_only s fp)
            (fcntl_flock fp;;;
             st_size <- os_fstat_st_size fp;;
             digest <- HashDescriptor_digest K fuel
                         {| fileno := s; digestsize := d |} fp st_size;;
             print (hexlify digest +:+ " " +:+ "" +:+ " " +:+ path)))
    as Hkeeps.
  { apply keeps_bind; [apply touches_only_trans | apply flock_keeps |].
    intros _. apply keeps_bind; [apply touches_only_trans | apply fstat_keeps |].
    intros sz. apply keeps_bind; [apply touches_only_trans | |].
    - apply (digest_keeps fuel {| fileno := s; digestsize := d |}).
    - intros b. apply print_keeps. }
  destruct (Hkeeps _ _ _ Hinner) as (Hfs & _ & Hout & Hlike).
  apply os_close_inv in Hclose as (Hfds & Hfs' & _ & _).
  cbn in Hfs, Hout, Hlike.
  split; [congruence |]. split.
  - intros k Hk. rewrite Hfds.
    destruct (decide (k = fp)) as [-> | Hkfp].
    + by rewrite lookup_delete_eq.
    + rewrite lookup_delete_ne, Hout, lookup_insert_ne by done. done.
  - rewrite Hfds, lookup_delete_ne by done.
    specialize (Hlike s). rewrite lookup_insert_ne, Hs in Hlike by done.
    destruct (w_fds w5 !! s) as [[] |]; try done.
    destruct Hlike as [<- <-]. eauto.
Qed.

Lemma session_frame_trans s name key w1 w2 w3 :
  session_frame s name key w1 w2 → session_frame s name key w2 w3 →
  session_frame s name key w1 w3.
Proof.
  intros (Hfs & Hout & _) (Hfs' & Hout' & Hs).
  split; [congruence |]. split; [| done].
  intros k Hk. rewrite Hout' by done. by apply Hout.
Qed.

Lemma main_files_frame fuel s d name key files :
  ∀ w msg i o w',
    w_fds w !! s = Some (FSession name key msg i) →
    main_files K fuel {| fileno := s; digestsize := d |} files w = (o, w') →
    o ≠ OutOfFuel →
    session_frame s name key w w'.
Proof.
  induction files as [| path files IH]; intros w msg i o w' Hs H Ho;
    cbn [main_files] in H.
  - inversion H; subst. split; [done |]. split; [done |]. eauto.
  - apply bind_inv in H as [([] & w1 & Hone & Hrest) | [(e & -> & Hone) | [-> _]]];
      [| by eapply main_file_frame | done].
    pose proof (main_file_frame _ _ _ _ _ _ _ _ _ _ _ Hs Hone) as Hf1.
    destruct Hf1 as (Hfs1 & Hout1 & msg1 & j1 & Hs1); [done |].
    eapply session_frame_trans; [| by eapply IH].
    split; [done |]. split; [done |]. eauto.
Qed.

(** The whole [with] statement: whatever the body does to its session, the
    descriptor table is afterwards as before the accept. *)
Lemma Hash_open_frame fuel self files w o w' :
  Hash_open K self
    (λ desc, main_files K fuel desc files) w = (o, w') →
  o ≠ OutOfFuel →
  w_fds w' = w_fds w ∧ w_fs w' = w_fs w.
Proof.
  intros H Ho. unfold Hash_open in H.
  apply bind_inv in H as [(s & wa & Hacc & H) | [(e & -> & Hacc) | [-> _]]];
    [| | done].
  2: { unfold libc_accept in Hacc. run_call.
       repeat case_match; discriminate. }
  apply try_finally_inv in H as (o1 & wb & r & Hbody & Hfin & Ho1 & _);
    [| done].
  destruct (Z.ltb_spec s 0) as [Hneg | Hpos].
  - destruct (libc_accept_negative K _ _ _ _ Hacc Hneg) as (Hfds & Hfs & _).
    run_call. inversion Hbody; subst.
    destruct (Z.geb_spec s 0); [lia |]. inversion Hfin; subst. done.
  - destruct (libc_accept_Ok_inv K _ _ _ _ Hacc Hpos)
      as (Hfresh & _ & name & key & Hfdsa).
    assert (w_fs wa = w_fs w) as Hfsa.
    { unfold libc_accept in Hacc. run_call.
      repeat case_match; inversion Hacc; subst; done. }
    assert (w_fds wa !! s = Some (FSession name key [] 0)) as Hsa
      by (rewrite Hfdsa; apply lookup_insert_eq).
    destruct (main_files_frame _ _ _ _ _ _ _ _ _ _ _ Hsa Hbody Ho1)
      as (Hfsb & Hout & _).
    rewrite (proj2 (Z.geb_le s 0)) in Hfin by lia.
    apply os_close_inv in Hfin as (Hfds' & Hfs' & _).
    split; [| congruence].
    apply map_eq. intros k. rewrite Hfds'.
    destruct (decide (k = s)) as [-> | Hk].
    + rewrite lookup_delete_eq, Hfresh. symmetry. apply fresh_fd_free.
    + rewrite lookup_delete_ne, Hout, Hfdsa, lookup_insert_ne by done. done.
Qed.

End Frames.

Section MainFrames.

Variable K : Kernel.

Lemma Hash_init_inv cls w o w' :
  Hash_init K cls w = (o, w') →
  let fd := fresh_fd (w_fds w) in
  w_fs w' = w_fs w ∧
  ((∃ e, o = Raise e ∧ w_fds w' = w_fds w) ∨
   (o = Ok {| h_class := cls; h_sock := fd |} ∧
    w_fds w' =
      <[fd := FSock (Some (ALG_TYPE, ALG_NAME cls)) (class_key cls)]>
        (w_fds w))).
Proof.
  intros H fd. destruct (k_socket K AF_ALG) as [n |] eqn:Hsock.
  { unfold Hash_init in H. run_call. rewrite Hsock in H.
    inversion H; subst. split; [done |]. left. eauto. }
  rewrite (Hash_init_run K cls w Hsock) in H. cbv zeta in H. fold fd in H.
  unfold class_key.
  destruct (k_bind K _ _); [inversion H; subst; split; [done |]; left; eauto |].
  destruct (cls_prepare cls).
  - inversion H; subst. split; [done |]. by right.
  - destruct (k_setsockopt K _ _ _ _ _); inversion H; subst;
      (split; [done |]); [left; eauto | by right].
Qed.

(** A run of [main] that ends, well or with an exception: the files and the
    session it opened are closed again; of the transform socket the same
    holds when the run ends well. *)
Lemma main_descriptors fuel algorithm files w o w' :
  main K fuel algorithm files w = (o, w') →
  o ≠ OutOfFuel →
  w_fs w' = w_fs w ∧
  (o = Ok tt → w_fds w' = w_fds w) ∧
  (∀ e, o = Raise e →
     w_fds w' = w_fds w ∨
     ∃ c, Hash_algorithm !! algorithm = Some c ∧
       w_fds w' =
         <[fresh_fd (w_fds w) :=
             FSock (Some (ALG_TYPE, ALG_NAME c)) (class_key c)]> (w_fds w)).
Proof.
  intros H Ho. unfold main in H. case_bool_decide.
  2: { inversion H; subst. split; [done |]. split; [done | by left]. }
  apply bind_inv in H as [(h & w1 & Hinst & H) | [(e & -> & Hinst) | [-> _]]];
    [| | done].
  2: { unfold Hash_instance in Hinst.
       destruct (Hash_algorithm !! algorithm) as [c |].
       - apply Hash_init_inv in Hinst
           as (Hfs & [(e' & _ & Hfds) | (? & _)]); [| done].
         split; [done |]. split; [done | by left].
       - inversion Hinst; subst. split; [done |]. split; [done | by left]. }
  unfold Hash_instance in Hinst.
  destruct (Hash_algorithm !! algorithm) as [c |] eqn:Hc; [| done].
  apply Hash_init_inv in Hinst as (Hfs1 & [(e' & ? & _) | ([= ->] & Hfds1)]);
    [done |].
  apply bind_inv in H as [([] & w2 & Hopen & Hdel) | [(e & -> & Hopen) | [-> _]]];
    [| | done].
  - apply Hash_open_frame in Hopen as (Hfds2 & Hfs2); [| done].
    unfold Hash_del, socket_close in Hdel. run_call.
    inversion Hdel; subst. cbn.
    split; [congruence |]. split; [| done]. intros _.
    rewrite Hfds2, Hfds1, delete_insert_eq.
    apply delete_id, fresh_fd_free.
  - apply Hash_open_frame in Hopen as (Hfds2 & Hfs2); [| done].
    split; [congruence |]. split; [done |]. intros e' _. right.
    exists c. split; [done |]. congruence.
Qed.

End MainFrames.

(** X10: a run of [main] that ends well leaks nothing: every file, the
    session and the transform socket have been closed, so the descriptor
    table is the one the run started with, and the file system is
    untouched. *)
Theorem main_leaves_no_descriptor K fuel algorithm files w w' :
  main K fuel algorithm files w = (Ok tt, w') →
  w_fds w' = w_fds w ∧ w_fs w' = w_fs w.
Proof.
  intros H. destruct (main_descriptors K _ _ _ _ _ _ H) as (Hfs & Hok & _);
    [done |].
  split; [by apply Hok | done].
Qed.

Lemma main_leaves_no_descriptor_witness :
  w_fds (main K_short 20 "sha1" ["a"%string; "b"%string] w_open).2
    = w_fds w_open.
Proof.
  destruct (main K_short 20 "sha1" ["a"%string; "b"%string] w_open)
    as [o w'] eqn:Hrun.
  assert (o = Ok tt) as ->.
  { assert (o = (main K_short 20 "sha1" ["a"%string; "b"%string] w_open).1)
      as -> by (by rewrite Hrun).
    vm_compute. reflexivity. }
  apply (main_leaves_no_descriptor _ _ _ _ _ _ Hrun).
Defined.



(** ** What a run prints *)

Lemma printed_app tr1 tr2 : printed (tr1 ++ tr2) = printed tr1 ++ printed tr2.
Proof.
  induction tr1 as [| e tr1 IH]; [done |]. destruct e; cbn; by rewrite ?IH.
Qed.



Section Output.

Variable K : Kernel.

Lemma py_open_run path w data :
  w_fs w !! path = Some data →
  py_open path w =
    (Ok (fresh_fd (w_fds w)),
     set_fds (insert (fresh_fd (w_fds w)) (FFile data 0))
       (log (EvOpen path) w)).
Proof. intros H. run_call. by rewrite H. Qed.

Lemma fcntl_flock_run fd w x :
  w_fds w !! fd = Some x → fcntl_flock fd w = (Ok tt, log (EvFlock fd) w).
Proof. intros H. run_call. by rewrite H. Qed.

Lemma os_fstat_run fd w data pos :
  w_fds w !! fd = Some (FFile data pos) →
  os_fstat_st_size fd w = (Ok (len data), log (EvFstat fd) w).
Proof. intros H. run_call. by rewrite H. Qed.

Lemma os_close_run fd w x :
  w_fds w !! fd = Some x →
  os_close fd w = (Ok tt, set_fds (delete fd) (log (EvClose fd) w)).
Proof. intros H. run_call. by rewrite H. Qed.

(** A file that exists is opened, locked and sized without failure; what
    remains of the loop body is the digest, the line and the close. *)
Lemma main_file_opened fuel desc path w data :
  w_fs w !! path = Some data →
  let fp := fresh_fd (w_fds w) in
  main_file K fuel desc path w =
    try_finally
      (digest <- HashDescriptor_digest K fuel desc fp (len data);;
       print (output_line digest path))
      (os_close fp)
      (log (EvFstat fp)
         (log (EvFlock fp)
            (set_fds (insert fp (FFile data 0)) (log (EvOpen path) w)))).
Proof.
  intros Hfs fp. unfold main_file.
  rewrite (bind_run _ _ _ _ _ (py_open_run path w data Hfs)). fold fp.
  unfold try_finally.
  erewrite (bind_run (fcntl_flock fp)) by
    (apply fcntl_flock_run with (x := FFile data 0); cbn;
     apply lookup_insert_eq).
  erewrite (bind_run (os_fstat_st_size fp)) by
    (apply os_fstat_run with (pos := 0); cbn; apply lookup_insert_eq).
  reflexivity.
Qed.



Lemma Hash_init_Ok_quiet cls w h w1 :
  Hash_init K cls w = (Ok h, w1) →
  ∃ setup,
    w_trace w1 = w_trace w ++ setup ∧
    printed setup = [] ∧ count_events is_open setup = O.
Proof.
  intros H. destruct (k_socket K AF_ALG) as [n |] eqn:Hsock.
  { unfold Hash_init in H. run_call. rewrite Hsock in H. discriminate. }
  rewrite (Hash_init_run K cls w Hsock) in H. cbv zeta in H.
  destruct (k_bind K _ _); [discriminate |].
  destruct (cls_prepare cls).
  - inversion H; subst. eexists. by split.
  - destruct (k_setsockopt K _ _ _ _ _); [discriminate |].
    inversion H; subst. eexists. by split.
Qed.


End Output.



(** ** Runs that go through, and runs that stop at a missing file *)

Section Progress.

Variable K : Kernel.

Lemma libc_accept_run fd w ty name key :
  w_fds w !! fd = Some (FSock (Some (ty, name)) key) →
  k_accept K (length (w_trace w)) = None →
  libc_accept K fd w =
    (Ok (fresh_fd (w_fds w)),
     set_fds (insert (fresh_fd (w_fds w)) (FSession name key [] 0))
       (log (EvAccept fd) w)).
Proof. intros Hfd Hk. unfold libc_accept. run_call. by rewrite Hfd, Hk. Qed.

Lemma Hash_open_granted {A} self (body : HashDescriptor → M A) w s wa :
  libc_accept K (h_sock self) w = (Ok s, wa) → 0 ≤ s →
  Hash_open K self body w =
    try_finally
      (body {| fileno := s; digestsize := ALG_BYTE (h_class self) |})
      (os_close s) wa.
Proof.
  intros Hacc Hs. unfold Hash_open. rewrite (bind_run _ _ _ _ _ Hacc).
  destruct (Z.ltb_spec s 0); [lia |].
  by rewrite (proj2 (Z.geb_le s 0)) by lia.
Qed.

(** With reads that make progress and a budget of [d] iterations, a file
    that exists is hashed, printed and closed. *)
Lemma main_file_runs fuel s d path w name key msg i data :
  reads_deliver K →
  (Z.to_nat d ≤ fuel)%nat →
  w_fds w !! s = Some (FSession name key msg i) →
  w_fs w !! path = Some data →
  ∃ w', main_file K fuel {| fileno := s; digestsize := d |} path w
          = (Ok tt, w').
Proof.
  intros HK Hfuel Hs Hfs.
  rewrite (main_file_opened K fuel _ path w data Hfs).
  set (fp := fresh_fd (w_fds w)).
  pose proof (fresh_fd_free (w_fds w)) as Hfree. fold fp in Hfree.
  assert (fp ≠ s) as Hne by (intros Heq; rewrite Heq, Hs in Hfree; done).
  set (w3 := log (EvFstat fp) _).
  assert (w_fds w3 !! s = Some (FSession name key msg i)) as Hs3
    by (cbn; by rewrite lookup_insert_ne).
  assert (w_fds w3 !! fp = Some (FFile data 0)) as Hf3
    by (cbn; apply lookup_insert_eq).
  destruct (digest_enter K fuel {| fileno := s; digestsize := d |} fp
              (len data) w3 _ _ _ _ _ _ Hs3 Hf3)
    as (w2 & Heq & Hs2 & _ & _).
  destruct (digest_loop_finishes K {| fileno := s; digestsize := d |} HK
              fuel 0 [] w2) as (b & w4 & reads & Hloop & _ & _ & _).
  { by eexists _, _, _, _. }
  { cbn [digestsize]. by rewrite Z.sub_0_r. }
  rewrite Hloop in Heq.
  destruct (digest_touches K _ _ _ _ _ _ _ Heq) as (_ & _ & _ & Hlike).
  specialize (Hlike fp). rewrite Hf3 in Hlike.
  destruct (w_fds w4 !! fp) as [x |] eqn:Hf4; [| done].
  unfold try_finally. rewrite (bind_run _ _ _ _ _ Heq).
  unfold print, emit.
  erewrite os_close_run by (cbn; exact Hf4).
  eauto.
Qed.

Lemma main_files_runs fuel s d name key files :
  reads_deliver K →
  (Z.to_nat d ≤ fuel)%nat →
  ∀ w msg i,
    w_fds w !! s = Some (FSession name key msg i) →
    Forall (λ path, is_Some (w_fs w !! path)) files →
    ∃ w', main_files K fuel {| fileno := s; digestsize := d |} files w
            = (Ok tt, w').
Proof.
  intros HK Hfuel. induction files as [| path files IH];
    intros w msg i Hs Hall; cbn [main_files]; [by eexists |].
  inversion Hall as [| ? ? [data Hdata] Hrest]; subst.
  destruct (main_file_runs fuel s d path w _ _ _ _ data HK Hfuel Hs Hdata)
    as (w1 & Hone).
  rewrite (bind_run _ _ _ _ _ Hone).
  destruct (main_file_frame K _ _ _ _ _ _ _ _ _ _ _ Hs Hone)
    as (Hfs1 & _ & msg1 & j1 & Hs1); [done |].
  eapply IH; [exact Hs1 |]. by rewrite Hfs1.
Qed.


(** With the algorithm registered and the kernel granting socket, bind, key
    and accept, [main] reaches the loop over the files: what is left is the
    body under its finaliser, then the finaliser of the object. *)
Lemma main_enter fuel algorithm c w :
  Hash_algorithm !! algorithm = Some c →
  k_socket K AF_ALG = None →
  k_bind K ALG_TYPE (ALG_NAME c) = None →
  (∀ key n, k_setsockopt K (ALG_NAME c) SOL_ALG ALG_SET_KEY key n = None) →
  (∀ n, k_accept K n = None) →
  ∃ h s wa setup,
    0 ≤ s ∧
    (∀ files,
       main K fuel algorithm files w =
         (try_finally
            (main_files K fuel {| fileno := s; digestsize := ALG_BYTE c |}
               files)
            (os_close s);;;
          Hash_del h) wa) ∧
    w_fds wa !! s = Some (FSession (ALG_NAME c) (class_key c) [] 0) ∧
    w_fs wa = w_fs w ∧
    w_trace wa = w_trace w ++ setup ∧
    printed setup = [] ∧
    count_events is_open setup = O.
Proof.
  intros Hc Hsock Hbind Hkey Hacc.
  destruct (Hash_init K c w) as [o w1] eqn:Hinit.
  assert (∃ h, o = Ok h) as [h ->].
  { rewrite (Hash_init_run K c w Hsock) in Hinit. cbv zeta in Hinit.
    rewrite Hbind, Hkey in Hinit.
    destruct (cls_prepare c); inversion Hinit; eauto. }
  destruct (Hash_init_Ok_quiet K _ _ _ _ Hinit) as (setup & Htr1 & Hpr & Hop).
  pose proof Hinit as Hinv.
  apply Hash_init_inv in Hinv as (Hfs1 & [(e & ? & _) | ([= ->] & Hfds1)]);
    [done |].
  set (sock := fresh_fd (w_fds w)) in *.
  assert (w_fds w1 !! sock =
            Some (FSock (Some (ALG_TYPE, ALG_NAME c)) (class_key c))) as Hs1
    by (rewrite Hfds1; apply lookup_insert_eq).
  pose proof (libc_accept_run sock w1 _ _ _ Hs1 (Hacc _)) as Haccept.
  set (s := fresh_fd (w_fds w1)) in *.
  set (wa := set_fds _ (log (EvAccept sock) w1)) in *.
  exists {| h_class := c; h_sock := sock |}, s, wa, (setup ++ [EvAccept sock]).
  split; [apply fresh_fd_nonneg |]. split; [| split; [| split; [| split]]].
  - intros files. unfold main.
    rewrite bool_decide_eq_true_2
      by (rewrite elem_of_elements, elem_of_dom, Hc; by eexists).
    unfold Hash_instance. rewrite Hc.
    rewrite (bind_run _ _ _ _ _ Hinit).
    unfold bind.
    by rewrite (Hash_open_granted {| h_class := c; h_sock := sock |} _ _ _ _
                  Haccept (fresh_fd_nonneg _)).
  - unfold wa. cbn. apply lookup_insert_eq.
  - unfold wa. cbn. done.
  - unfold wa. cbn. rewrite Htr1. by rewrite <- app_assoc.
  - rewrite printed_app, count_events_app, Hpr, Hop. done.
Qed.

End Progress.

(** X13: [main] goes through.  When the algorithm is registered, the kernel
    grants the socket, the bind, the key and the accept, reads return between
    1 and the requested number of bytes, and every file exists, the run ends
    well (the step budget of the model covering one loop iteration for every
    byte of the digest). *)
Theorem main_runs K fuel algorithm c files w :
  Hash_algorithm !! algorithm = Some c →
  k_socket K AF_ALG = None →
  k_bind K ALG_TYPE (ALG_NAME c) = None →
  (∀ key n, k_setsockopt K (ALG_NAME c) SOL_ALG ALG_SET_KEY key n = None) →
  (∀ n, k_accept K n = None) →
  reads_deliver K →
  (Z.to_nat (ALG_BYTE c) ≤ fuel)%nat →
  Forall (λ path, is_Some (w_fs w !! path)) files →
  ∃ w', main K fuel algorithm files w = (Ok tt, w').
Proof.
  intros Hc Hsock Hbind Hkey Hacc HK Hfuel Hfiles.
  destruct (main_enter K fuel algorithm c w Hc Hsock Hbind Hkey Hacc)
    as (h & s & wa & setup & Hs & Hmain & Hsa & Hfsa & _).
  rewrite Hmain.
  destruct (main_files_runs K fuel s (ALG_BYTE c) _ _ files HK Hfuel wa _ _ Hsa)
    as (wb & Hbody); [by rewrite Hfsa |].
  destruct (main_files_frame K _ _ _ _ _ _ _ _ _ _ _ Hsa Hbody)
    as (_ & _ & msg & j & Hsb); [done |].
  unfold bind, try_finally. rewrite Hbody.
  erewrite os_close_run by exact Hsb.
  unfold Hash_del, socket_close. run_call. eauto.
Qed.

Lemma main_runs_witness :
  ∃ w', main K_short 32 "sha256" ["a"%string; "b"%string] w0 = (Ok tt, w').
Proof.
  apply (main_runs K_short 32 "sha256" HashSHA256 ["a"%string; "b"%string] w0).
  - reflexivity.
  - reflexivity.
  - reflexivity.
  - intros key n. reflexivity.
  - intros n. reflexivity.
  - apply K_short_reads_deliver.
  - unfold HashSHA256. cbn [ALG_BYTE]. lia.
  - repeat constructor; by eexists.
Defined.

Lemma main_file_missing K fuel desc path w :
  w_fs w !! path = None →
  main_file K fuel desc path w = (Raise (OSError ENOENT), log (EvOpen path) w).
Proof. intros H. unfold main_file. run_call. by rewrite H. Qed.



(** X15: the calls made for one file of a successful run, in order: open,
    shared lock, size, transfer of exactly that size into the session, rewind,
    the reads, the line, close.  So the lock is taken before the size is read
    and held until the digest has been read and printed, and the file's
    descriptor is gone afterwards. *)
Theorem main_file_call_order K fuel s d path w name key msg i w' :
  w_fds w !! s = Some (FSession name key msg i) →
  main_file K fuel {| fileno := s; digestsize := d |} path w = (Ok tt, w') →
  let fp := fresh_fd (w_fds w) in
  ∃ data b reads,
    w_fs w !! path = Some data ∧
    w_trace w' = w_trace w ++
      [EvOpen path; EvFlock fp; EvFstat fp; EvSendfile s fp (len data);
       EvLseek fp 0] ++ reads ++ [EvPrint (output_line b path); EvClose fp] ∧
    Forall (λ e, is_read e = true) reads ∧
    w_fds w' !! fp = None.
Proof.
  intros Hs H fp.
  destruct (w_fs w !! path) as [data |] eqn:Hfs.
  2: { by rewrite (main_file_missing K fuel _ path w Hfs) in H. }
  rewrite (main_file_opened K fuel _ path w data Hfs) in H. fold fp in H.
  apply try_finally_Ok in H as (w5 & H & Hclose).
  apply bind_Ok in H as (b & w4 & Hdig & Hprint).
  unfold print, emit in Hprint. inversion Hprint; subst w5. clear Hprint.
  destruct (digest_Ok_trace K _ _ _ _ _ _ _ Hdig) as (_ & reads & Htr4 & Hreads).
  apply os_close_inv in Hclose as (Hfds' & _ & Htr' & _).
  exists data, b, reads. split; [done |]. split; [| split; [done |]].
  - rewrite Htr'. cbn [w_trace log]. rewrite Htr4.
    cbn [w_trace log set_fds fileno]. rewrite <- !app_assoc. reflexivity.
  - rewrite Hfds'. apply lookup_delete_eq.
Qed.

Lemma main_file_call_order_witness :
  ∃ w', main_file K_full 1 {| fileno := 1; digestsize := 16 |} "b" w_open
          = (Ok tt, w') ∧
        w_trace w' =
          [EvOpen "b"; EvFlock 3; EvFstat 3; EvSendfile 1 3 5; EvLseek 3 0;
           EvRead 1 16; EvPrint "14141414141414141414141414141414  b";
           EvClose 3].
Proof.
  destruct (main_file K_full 1 {| fileno := 1; digestsize := 16 |} "b" w_open)
    as [o w'] eqn:Hrun.
  assert (o = Ok tt) as ->.
  { assert (o = (main_file K_full 1 {| fileno := 1; digestsize := 16 |} "b"
                   w_open).1) as -> by (by rewrite Hrun).
    vm_compute. reflexivity. }
  exists w'. split; [done |].
  destruct (main_file_call_order K_full 1 1 16 "b" w_open
              (ALG_NAME HashMD5) None [] 0%nat w' eq_refl Hrun)
    as (data & b & reads & _ & _ & _ & _).
  assert (w' = (main_file K_full 1 {| fileno := 1; digestsize := 16 |} "b"
                  w_open).2) as -> by (by rewrite Hrun).
  vm_compute. reflexivity.
Defined.
